(** * Point-formation engine of the holiday-tree scene (src/index.tsx)

    A shallow embedding of the procedural core of [src/index.tsx]:
    the two point generators [randomInSphere] and [randomOnTree], the
    particle-pool generation of [FoliageSystem], its per-frame progress
    update, the position part of [foliageVertexShader], and the per-frame
    ornament update of [OrnamentSystem]; then the colour part of the
    vertex shader, [foliageFragmentShader], the reading of the buffer
    attributes, and the path and the frame callback of [StarTopper].

    Numbers.  JavaScript numbers are modelled by the type [JS.num]: a real
    number, one of the two infinities, or NaN.  Arithmetic on finite values
    is exact real arithmetic (rounding and overflow are not modelled, and
    zero carries no sign); the special values follow IEEE 754 as JavaScript
    exposes it, so that a division [0/0] is NaN in the model as it is in
    the program.  A store into a [Float32Array] rounds to single precision,
    and its constructor fails on the lengths and for the lack of room that
    make the engine's fail.  The GLSL code of the vertex shader only adds, multiplies
    and clamps, and is modelled over [R]; the one partial operation it
    uses, [normalize], returns an [option]. *)

From Stdlib Require Import Reals Lra Lia List ZArith Bool FunctionalExtensionality.
Import ListNotations.
Open Scope R_scope.

(* ================================================================= *)
(** ** JavaScript numbers *)

Module JS.

Inductive num : Type :=
| Fin (x : R)
| Inf (positive : bool)
| NaN.

Declare Scope js_scope.
Delimit Scope js_scope with js.
Bind Scope js_scope with num.

(** The product of a finite [a] and an infinity of sign [s]; also the
    quotient of a finite [a] by zero when [s] is [true]. *)
Definition scale_inf (a : R) (s : bool) : num :=
  match total_order_T a 0 with
  | inleft (left _) => Inf (negb s)
  | inleft (right _) => NaN
  | inright _ => Inf s
  end.

Definition neg (a : num) : num :=
  match a with
  | Fin x => Fin (- x)
  | Inf s => Inf (negb s)
  | NaN => NaN
  end.

Definition add (a b : num) : num :=
  match a, b with
  | NaN, _ | _, NaN => NaN
  | Fin x, Fin y => Fin (x + y)
  | Fin _, Inf s | Inf s, Fin _ => Inf s
  | Inf s, Inf s' => if Bool.eqb s s' then Inf s else NaN
  end.

Definition sub (a b : num) : num := add a (neg b).

Definition mul (a b : num) : num :=
  match a, b with
  | NaN, _ | _, NaN => NaN
  | Fin x, Fin y => Fin (x * y)
  | Fin x, Inf s | Inf s, Fin x => scale_inf x s
  | Inf s, Inf s' => Inf (Bool.eqb s s')
  end.

Definition div (a b : num) : num :=
  match a, b with
  | NaN, _ | _, NaN => NaN
  | Fin x, Fin y => if Req_dec_T y 0 then scale_inf x true else Fin (x / y)
  | Fin _, Inf _ => Fin 0
  | Inf s, Fin y => if Rlt_dec y 0 then Inf (negb s) else Inf s
  | Inf _, Inf _ => NaN
  end.

(** [a < b]; every comparison with NaN is false. *)
Definition lt (a b : num) : bool :=
  match a, b with
  | NaN, _ | _, NaN => false
  | Fin x, Fin y => if Rlt_dec x y then true else false
  | Fin _, Inf s => s
  | Inf s, Fin _ => negb s
  | Inf s, Inf s' => negb s && s'
  end.

Definition gt (a b : num) : bool := lt b a.

(** [a <= b]; every comparison with NaN is false. *)
Definition le (a b : num) : bool :=
  match a, b with
  | NaN, _ | _, NaN => false
  | Fin x, Fin y => if Rle_dec x y then true else false
  | Fin _, Inf s => s
  | Inf s, Fin _ => negb s
  | Inf s, Inf s' => negb s || s'
  end.

(** Truthiness of a number: [0] and NaN are falsy. *)
Definition truthy (a : num) : bool :=
  match a with
  | Fin x => if Req_dec_T x 0 then false else true
  | Inf _ => true
  | NaN => false
  end.

(** [a || b] on numbers. *)
Definition or_else (a b : num) : num := if truthy a then a else b.

Notation "a + b" := (add a b) : js_scope.
Notation "a - b" := (sub a b) : js_scope.
Notation "a * b" := (mul a b) : js_scope.
Notation "a / b" := (div a b) : js_scope.

Definition is_finite (a : num) : Prop := exists x, a = Fin x.

(** *** The [Math] object *)

Definition Math_PI : num := Fin PI.

Definition Math_sin (a : num) : num :=
  match a with Fin x => Fin (sin x) | _ => NaN end.

Definition Math_cos (a : num) : num :=
  match a with Fin x => Fin (cos x) | _ => NaN end.

Definition Math_acos (a : num) : num :=
  match a with
  | Fin x =>
      if Rle_dec (-1) x then if Rle_dec x 1 then Fin (acos x) else NaN
      else NaN
  | _ => NaN
  end.

Definition Math_sqrt (a : num) : num :=
  match a with
  | Fin x => if Rlt_dec x 0 then NaN else Fin (sqrt x)
  | Inf true => Inf true
  | Inf false => NaN
  | NaN => NaN
  end.

(** The real cube root. *)
Definition cbrt (x : R) : R :=
  match total_order_T x 0 with
  | inleft (left _) => - Rpower (- x) (/ 3)
  | inleft (right _) => 0
  | inright _ => Rpower x (/ 3)
  end.

Definition Math_cbrt (a : num) : num :=
  match a with
  | Fin x => Fin (cbrt x)
  | Inf s => Inf s
  | NaN => NaN
  end.

(** [Math.pow(a, e)] for a finite exponent [e] that is positive and not an
    integer, the only kind the program uses ([1.2]): a negative base gives
    NaN, a zero base gives zero, and both infinities give [+Infinity]. *)
Definition Math_pow (a : num) (e : R) : num :=
  match a with
  | Fin x =>
      match total_order_T x 0 with
      | inleft (left _) => NaN
      | inleft (right _) => Fin 0
      | inright _ => Fin (Rpower x e)
      end
  | Inf _ => Inf true
  | NaN => NaN
  end.

End JS.

Import JS.

(* ================================================================= *)
(** ** [Math.random]: a state monad over the stream of draws *)

(** The draws still to come; [Math.random()] returns a number in [[0,1)]. *)
Definition rng : Type := nat -> R.

Definition in_unit (s : rng) : Prop := forall n, 0 <= s n < 1.

Definition Rand (A : Type) : Type := rng -> A * rng.

Definition ret {A} (a : A) : Rand A := fun s => (a, s).

Definition bind {A B} (c : Rand A) (k : A -> Rand B) : Rand B :=
  fun s => let (a, s') := c s in k a s'.

Notation "x <- c ;; k" := (bind c (fun x => k))
  (at level 61, c at next level, right associativity).

Definition drop (k : nat) (s : rng) : rng := fun n => s (k + n)%nat.

Definition Math_random : Rand num := fun s => (Fin (s 0%nat), drop 1 s).

(** The draws used in the examples: every call of [Math.random] gives
    one half. *)
Definition halves : rng := fun _ => 1 / 2.

(* ================================================================= *)
(** ** [THREE.Vector3] and [THREE.MathUtils] *)

Module Vector3.

Record t : Type := mk { x : num; y : num; z : num }.

Definition finite (v : t) : Prop :=
  is_finite (x v) /\ is_finite (y v) /\ is_finite (z v).

(** A vector of three finite coordinates. *)
Definition fin (a b c : R) : t := mk (Fin a) (Fin b) (Fin c).

Definition clone (v : t) : t := v.

Definition length (v : t) : num :=
  Math_sqrt (x v * x v + y v * y v + z v * z v)%js.

Definition multiplyScalar (v : t) (s : num) : t :=
  mk (x v * s)%js (y v * s)%js (z v * s)%js.

Definition divideScalar (v : t) (s : num) : t :=
  multiplyScalar v (Fin 1 / s)%js.

(** [normalize] divides by the length, or by [1] when the length is falsy. *)
Definition normalize (v : t) : t :=
  divideScalar v (or_else (length v) (Fin 1)).

(** [this.lerp(v, alpha)]: each coordinate moves by [alpha] of its gap. *)
Definition lerp (this v : t) (alpha : num) : t :=
  mk (x this + (x v - x this) * alpha)%js
     (y this + (y v - y this) * alpha)%js
     (z this + (z v - z this) * alpha)%js.

Definition distanceToSquared (this v : t) : num :=
  let dx := (x this - x v)%js in
  let dy := (y this - y v)%js in
  let dz := (z this - z v)%js in
  (dx * dx + dy * dy + dz * dz)%js.

Definition distanceTo (this v : t) : num :=
  Math_sqrt (distanceToSquared this v).

End Vector3.

(** [THREE.MathUtils.lerp(x, y, t)]. *)
Definition MathUtils_lerp (x y t : num) : num :=
  ((Fin 1 - t) * x + t * y)%js.

(* ================================================================= *)
(** ** Configuration *)

(** The module-level constants of the source, gathered so that the
    generation code can be read at other values than the ones it ships
    with. *)
Record Config : Type := mkConfig {
  TREE_HEIGHT : num;
  TREE_RADIUS : num;
  PARTICLE_COUNT : Z;
  BOX_COUNT : Z;
  BLUE_SPHERE_COUNT : Z
}.

Definition source_config : Config :=
  {| TREE_HEIGHT := Fin 12;
     TREE_RADIUS := Fin 4.5;
     PARTICLE_COUNT := 18000;
     BOX_COUNT := 1200;
     BLUE_SPHERE_COUNT := 250 |}.

(** The source's configuration with two particles only. *)
Definition small_config : Config :=
  {| TREE_HEIGHT := Fin 12;
     TREE_RADIUS := Fin 4.5;
     PARTICLE_COUNT := 2;
     BOX_COUNT := 1200;
     BLUE_SPHERE_COUNT := 250 |}.

(** A malformed configuration: the source's, with the tree height set to
    zero and a single particle. *)
Definition flat_config : Config :=
  {| TREE_HEIGHT := Fin 0;
     TREE_RADIUS := Fin 4.5;
     PARTICLE_COUNT := 1;
     BOX_COUNT := 1200;
     BLUE_SPHERE_COUNT := 250 |}.

(* ================================================================= *)
(** ** The point generators *)

(** A random point inside a sphere. *)
Definition randomInSphere (radius : num) : Rand Vector3.t :=
  u <- Math_random ;;
  v <- Math_random ;;
  let theta := (Fin 2 * Math_PI * u)%js in
  let phi := Math_acos (Fin 2 * v - Fin 1)%js in
  w <- Math_random ;;
  let r := (Math_cbrt w * radius)%js in
  let sinPhi := Math_sin phi in
  ret (Vector3.mk (r * sinPhi * Math_cos theta)%js
                  (r * sinPhi * Math_sin theta)%js
                  (r * Math_cos phi)%js).

(** A point on the cone surface; [yMinRatio] and [yMaxRatio] restrict it
    to a band of the height. *)
Definition randomOnTree (height radiusBase yMinRatio yMaxRatio : num)
  : Rand Vector3.t :=
  let minH := (height * yMinRatio)%js in
  let maxH := (height * yMaxRatio)%js in
  let range := (maxH - minH)%js in
  u <- Math_random ;;
  let y := (u * range + minH)%js in
  let percentage := (Fin 1 - y / height)%js in
  let r := (radiusBase * Math_pow percentage 1.2)%js in
  v <- Math_random ;;
  let theta := (v * Math_PI * Fin 2)%js in
  let layerNoise := (Math_sin (y * Fin 3.0) * Fin 0.15)%js in
  ret (Vector3.mk ((r + layerNoise) * Math_cos theta)%js
                  (y - height / Fin 2)%js
                  ((r + layerNoise) * Math_sin theta)%js).

(** The call with the two default arguments, [yMinRatio = 0] and
    [yMaxRatio = 1]. *)
Definition randomOnTree_default (height radiusBase : num) : Rand Vector3.t :=
  randomOnTree height radiusBase (Fin 0) (Fin 1).

(* ================================================================= *)
(** ** Typed arrays and exceptions *)

Inductive exn : Type := RangeError.

Inductive result (A : Type) : Type :=
| Ok (a : A)
| Throw (e : exn).

Arguments Ok {A} a.
Arguments Throw {A} e.

Definition result_bind {A B} (r : result A) (k : A -> result B) : result B :=
  match r with
  | Ok a => k a
  | Throw e => Throw e
  end.

Notation "x <-! r ;; k" := (result_bind r (fun x => k))
  (at level 61, r at next level, right associativity).

(** *** Rounding to single precision *)

(** [2^e]. *)
Definition bpow (e : Z) : R := powerRZ 2 e.

(** The integer part of the binary logarithm of [x > 0]. *)
Definition log2_floor (x : R) : Z := Int_part (ln x / ln 2).

(** The nearest integer, the even one of the two at a tie. *)
Definition rne (t : R) : Z :=
  let f := Int_part t in
  match total_order_T (t - IZR f) (1 / 2) with
  | inleft (left _) => f
  | inleft (right _) => if Z.even f then f else (f + 1)%Z
  | inright _ => (f + 1)%Z
  end.

(** The exponent of the last place of the single-precision numbers around
    [x]: [24] significant bits, and no exponent below [-149]. *)
Definition f32_exp (x : R) : Z := Z.max (log2_floor (Rabs x) - 23) (-149).

(** [Math.fround]: the nearest single-precision number, ties to the even
    significand, an infinity from [2^128] on.  (Zero carries no sign.) *)
Definition Math_fround (a : num) : num :=
  match a with
  | Fin x =>
      if Req_dec_T x 0 then Fin 0
      else
        let e := f32_exp x in
        let y := IZR (rne (x / bpow e)) * bpow e in
        if Rle_dec (bpow 128) (Rabs y)
        then Inf (if Rlt_dec 0 x then true else false)
        else Fin y
  | Inf sg => Inf sg
  | NaN => NaN
  end.

(** *** [Float32Array] *)

Definition Float32Array : Type := list num.

(** No [Float32Array] is longer: its buffer, of four bytes an element,
    cannot exceed [2^53 - 1] bytes. *)
Definition MAX_LENGTH : Z := (2 ^ 53 - 1) / 4.

(** Whether an array of length [n] can be constructed when the engine has
    room for [room] elements; an empty array always can. *)
Definition can_construct (room n : Z) : bool :=
  negb ((n <? 0)%Z || (Z.min (Z.max 0 room) MAX_LENGTH <? n)%Z).

(** [new Float32Array(n)]: a zero-filled array, or a [RangeError] for a
    negative length, a length above the maximum, or a buffer that the
    engine cannot allocate; [room] is the length it can allocate at that
    point. *)
Definition Float32Array_new (room n : Z) : result Float32Array :=
  if can_construct room n then Ok (repeat (Fin 0) (Z.to_nat n))
  else Throw RangeError.

(** [a[i] = v]: the element stored is [v] rounded to single precision; a
    write outside a typed array is ignored. *)
Fixpoint store (a : Float32Array) (i : nat) (v : num) : Float32Array :=
  match a, i with
  | [], _ => []
  | _ :: rest, O => Math_fround v :: rest
  | h :: rest, S j => h :: store rest j v
  end.

(** [a[i]]; a read outside the array is [undefined]. *)
Definition load (a : Float32Array) (i : nat) : option num := nth_error a i.

(* ================================================================= *)
(** ** [FoliageSystem]: the particle pool and the progress update *)

Module Foliage.

Record Pool : Type := mkPool {
  positions : Float32Array;
  scatterPos : Float32Array;
  treePos : Float32Array;
  randoms : Float32Array;
  sizes : Float32Array;
  colorTypes : Float32Array
}.

(** The colour class of a particle from its draw. *)
Definition colorType (rand : num) : num :=
  if gt rand (Fin 0.95) then Fin 3.0
  else if gt rand (Fin 0.80) then Fin 2.0
  else if gt rand (Fin 0.50) then Fin 1.0
  else Fin 0.0.

Definition store3 (a : Float32Array) (i : nat) (v : Vector3.t)
  : Float32Array :=
  store (store (store a (i * 3) (Vector3.x v))
               (i * 3 + 1) (Vector3.y v))
        (i * 3 + 2) (Vector3.z v).

(** The body of the generation loop for particle [i]. *)
Definition fill (cfg : Config) (i : nat) (a : Pool) : Rand Pool :=
  treeP <- randomOnTree_default (TREE_HEIGHT cfg) (TREE_RADIUS cfg) ;;
  let tPos := store3 (treePos a) i treeP in
  scatterP <- randomInSphere (Fin 15) ;;
  let sPos := store3 (scatterPos a) i scatterP in
  let p := store3 (positions a) i scatterP in
  u <- Math_random ;;
  let r := store (randoms a) i u in
  v <- Math_random ;;
  let s := store (sizes a) i (v * Fin 0.5 + Fin 0.5)%js in
  rand <- Math_random ;;
  let cType := store (colorTypes a) i (colorType rand) in
  ret (mkPool p sPos tPos r s cType).

(** [for (let i = i0; i < i0 + n; i++)]. *)
Fixpoint loop (cfg : Config) (n i : nat) (a : Pool) : Rand Pool :=
  match n with
  | O => ret a
  | S k => a' <- fill cfg i a ;; loop cfg k (S i) a'
  end.

(** The [useMemo] callback that generates the attribute arrays; [room k]
    is the room the engine has at the [k]-th of the six constructions. *)
Definition generate (room : nat -> Z) (cfg : Config) (s : rng)
  : result (Pool * rng) :=
  let n := PARTICLE_COUNT cfg in
  p <-! Float32Array_new (room 0%nat) (n * 3) ;;
  sPos <-! Float32Array_new (room 1%nat) (n * 3) ;;
  tPos <-! Float32Array_new (room 2%nat) (n * 3) ;;
  r <-! Float32Array_new (room 3%nat) n ;;
  sz <-! Float32Array_new (room 4%nat) n ;;
  cType <-! Float32Array_new (room 5%nat) n ;;
  Ok (loop cfg (Z.to_nat n) 0 (mkPool p sPos tPos r sz cType) s).

(** The six constructions of a pool of [n] particles all succeed. *)
Definition fits (room : nat -> Z) (n : Z) : Prop :=
  can_construct (room 0%nat) (n * 3) = true
  /\ can_construct (room 1%nat) (n * 3) = true
  /\ can_construct (room 2%nat) (n * 3) = true
  /\ can_construct (room 3%nat) n = true
  /\ can_construct (room 4%nat) n = true
  /\ can_construct (room 5%nat) n = true.

(** An engine with room for a million elements at each construction. *)
Definition roomy : nat -> Z := fun _ => 1000000%Z.

(** The lengths of the six arrays of a pool of [n] particles. *)
Definition shape (n : nat) (a : Pool) : Prop :=
  length (positions a) = (n * 3)%nat
  /\ length (scatterPos a) = (n * 3)%nat
  /\ length (treePos a) = (n * 3)%nat
  /\ length (randoms a) = n
  /\ length (sizes a) = n
  /\ length (colorTypes a) = n.

(** What the frame callback writes into the mesh. *)
Record Mesh : Type := mkMesh {
  uTime : num;
  uProgress : num;
  rotation_y : num
}.

(** The component's mutable state: the [progress] ref and the mesh behind
    [meshRef] ([None] while it is not mounted). *)
Record State : Type := mkState {
  progress : num;
  meshRef : option Mesh
}.

Definition initial : State := mkState (Fin 0) None.

(** The [useFrame] callback; [elapsedTime] is [state.clock.elapsedTime]. *)
Definition useFrame (isTreeForm : bool) (elapsedTime delta : num)
    (st : State) : State :=
  match meshRef st with
  | Some _ =>
      let target := if isTreeForm then Fin 1 else Fin 0 in
      let p := MathUtils_lerp (progress st) target (delta * Fin 1.5)%js in
      mkState p (Some (mkMesh elapsedTime p (elapsedTime * Fin 0.05 * p)%js))
  | None => st
  end.

(** [n] frames [dt] apart, the first at clock time [t0 + dt]. *)
Fixpoint frames (isTreeForm : bool) (dt : R) (n : nat) (t0 : R)
    (st : State) : State :=
  match n with
  | O => st
  | S k =>
      frames isTreeForm dt k (t0 + dt)
        (useFrame isTreeForm (Fin (t0 + dt)) (Fin dt) st)
  end.

(** The target value of the progress, as a real number. *)
Definition targetOf (isTreeForm : bool) : R := if isTreeForm then 1 else 0.

(** The state of the mounted component before its first frame: the
    progress ref and both uniforms start at [0], and so does the rotation
    of the mesh. *)
Definition mounted : State :=
  mkState (Fin 0) (Some (mkMesh (Fin 0) (Fin 0) (Fin 0))).

End Foliage.

(* ================================================================= *)
(** ** [OrnamentSystem] *)

Inductive Color : Type :=
| C_EMERALD | C_DEEP_GREEN | C_RED | C_WHITE | C_GOLD | C_BLUE | C_ICE_BLUE.

Module Ornament.

Record t : Type := mk {
  treePos : Vector3.t;
  scatterPos : Vector3.t;
  currentPos : Vector3.t;
  scale : num;
  speed : num;
  phase : num;
  color : Color;
  rotationAxis : Vector3.t
}.

(** One iteration of the loop that creates the boxes. *)
Definition box (cfg : Config) : Rand t :=
  treeP <- randomOnTree_default (TREE_HEIGHT cfg - Fin 0.5)%js
                                (TREE_RADIUS cfg - Fin 0.8)%js ;;
  scatterP <- randomInSphere (Fin 12) ;;
  u <- Math_random ;;
  let scale := (u * Fin 0.08 + Fin 0.2)%js in
  r <- Math_random ;;
  let color :=
    if lt r (Fin 0.20) then C_GOLD
    else if lt r (Fin 0.60) then C_RED
    else C_WHITE in
  v <- Math_random ;;
  w <- Math_random ;;
  a <- Math_random ;;
  b <- Math_random ;;
  c <- Math_random ;;
  ret (mk treeP scatterP (Vector3.clone scatterP) scale
          (v * Fin 0.05 + Fin 0.02)%js
          (w * Math_PI * Fin 2)%js
          color
          (Vector3.normalize (Vector3.mk a b c))).

(** One iteration of the loop that creates the blue spheres. *)
Definition blueSphere (cfg : Config) : Rand t :=
  treeP <- randomOnTree (TREE_HEIGHT cfg) (TREE_RADIUS cfg - Fin 0.5)%js
                        (Fin 0.0) (Fin 0.4) ;;
  scatterP <- randomInSphere (Fin 12) ;;
  u <- Math_random ;;
  let scale := (u * Fin 0.08 + Fin 0.12)%js in
  v <- Math_random ;;
  w <- Math_random ;;
  q <- Math_random ;;
  a <- Math_random ;;
  b <- Math_random ;;
  c <- Math_random ;;
  ret (mk treeP scatterP (Vector3.clone scatterP) scale
          (v * Fin 0.05 + Fin 0.02)%js
          (w * Math_PI * Fin 2)%js
          (if gt q (Fin 0.6) then C_BLUE else C_ICE_BLUE)
          (Vector3.normalize (Vector3.mk a b c))).

(** [for (let i = 0; i < n; i++) items.push(...)]. *)
Fixpoint items (n : nat) (one : Rand t) : Rand (list t) :=
  match n with
  | O => ret []
  | S k => o <- one ;; rest <- items k one ;; ret (o :: rest)
  end.

Definition boxes (cfg : Config) : Rand (list t) :=
  items (Z.to_nat (BOX_COUNT cfg)) (box cfg).

Definition blueSpheres (cfg : Config) : Rand (list t) :=
  items (Z.to_nat (BLUE_SPHERE_COUNT cfg)) (blueSphere cfg).

(** The target of an ornament in the current form. *)
Definition target (isTreeForm : bool) (o : t) : Vector3.t :=
  if isTreeForm then treePos o else scatterPos o.

(** The update of one ornament in the frame callback:
    [o.currentPos.lerp(target, o.speed)]. *)
Definition update (isTreeForm : bool) (o : t) : t :=
  mk (treePos o) (scatterPos o)
     (Vector3.lerp (currentPos o) (target isTreeForm o) (speed o))
     (scale o) (speed o) (phase o) (color o) (rotationAxis o).

(** The position given to the instance: the current position, bobbing
    while scattered. *)
Definition instancePosition (isTreeForm : bool) (time : num) (o : t)
  : Vector3.t :=
  let floatY :=
    if isTreeForm then Fin 0
    else (Math_sin (time + phase o) * Fin 0.02)%js in
  let p := currentPos o in
  Vector3.mk (Vector3.x p) (Vector3.y p + floatY)%js (Vector3.z p).

(** The [useFrame] callback on both families of ornaments. *)
Definition useFrame (isTreeForm : bool) (st : list t * list t)
  : list t * list t :=
  (map (update isTreeForm) (fst st), map (update isTreeForm) (snd st)).

(** What holds of every ornament from its creation on: its three positions
    are finite and its speed is a number in [[0.02, 0.07]]. *)
Definition wf (o : t) : Prop :=
  Vector3.finite (treePos o)
  /\ Vector3.finite (scatterPos o)
  /\ Vector3.finite (currentPos o)
  /\ exists a, speed o = Fin a /\ 0.02 <= a <= 0.07.

(** [o'] is [o] after one step toward the target of the form in force:
    same speed and targets, and the current position moved by the
    fraction [speed] of the way. *)
Definition approaches (isTreeForm : bool) (o o' : t) : Prop :=
  speed o' = speed o
  /\ treePos o' = treePos o
  /\ scatterPos o' = scatterPos o
  /\ currentPos o'
     = Vector3.lerp (currentPos o) (target isTreeForm o) (speed o)
  /\ exists a cx cy cz tx ty tz d,
       speed o = Fin a /\ 0.02 <= a <= 0.07
       /\ currentPos o = Vector3.fin cx cy cz
       /\ target isTreeForm o = Vector3.fin tx ty tz
       /\ currentPos o'
          = Vector3.fin ((1 - a) * cx + a * tx) ((1 - a) * cy + a * ty)
                        ((1 - a) * cz + a * tz)
       /\ Rmin cx tx <= (1 - a) * cx + a * tx <= Rmax cx tx
       /\ Rmin cy ty <= (1 - a) * cy + a * ty <= Rmax cy ty
       /\ Rmin cz tz <= (1 - a) * cz + a * tz <= Rmax cz tz
       /\ Vector3.distanceTo (currentPos o) (target isTreeForm o) = Fin d
       /\ Vector3.distanceTo (currentPos o') (target isTreeForm o)
          = Fin ((1 - a) * d).

(** An ornament at rest at [(1,0,0)] whose tree position is the origin. *)
Definition sample : t :=
  mk (Vector3.fin 0 0 0) (Vector3.fin 1 0 0) (Vector3.fin 1 0 0)
     (Fin 0.2) (Fin 0.05) (Fin 0) C_RED (Vector3.fin 1 0 0).

(** What creation gives a box of a tree of height [h]. *)
Definition fresh_box (h : R) (o : t) : Prop :=
  currentPos o = scatterPos o
  /\ le (Vector3.length (scatterPos o)) (Fin 12) = true
  /\ (exists yv, Vector3.y (treePos o) = Fin yv
                 /\ - (h - 0.5) / 2 <= yv <= (h - 0.5) / 2)
  /\ (exists z, scale o = Fin z /\ 0.2 <= z < 0.28)
  /\ (exists ph, phase o = Fin ph /\ 0 <= ph < 2 * PI).

(** What creation gives a blue sphere of a tree of height [h]. *)
Definition fresh_blueSphere (h : R) (o : t) : Prop :=
  currentPos o = scatterPos o
  /\ le (Vector3.length (scatterPos o)) (Fin 12) = true
  /\ (exists yv, Vector3.y (treePos o) = Fin yv
                 /\ - h / 2 <= yv <= h * 0.4 - h / 2)
  /\ (exists z, scale o = Fin z /\ 0.12 <= z < 0.2)
  /\ (exists ph, phase o = Fin ph /\ 0 <= ph < 2 * PI).

(** An ornament standing at its tree position [(2, 5, -1)], with a speed
    outside the range that creation gives. *)
Definition hasty : t :=
  mk (Vector3.fin 2 5 (-1)) (Vector3.fin 7 0 3) (Vector3.fin 2 5 (-1))
     (Fin 0.2) (Fin 3) (Fin 1) C_GOLD (Vector3.fin 0 1 0).

End Ornament.

(* ================================================================= *)
(** ** [foliageVertexShader]: the position of a particle *)

Module Shader.

Record vec3 : Type := mkvec3 { x : R; y : R; z : R }.

Definition vadd (a b : vec3) : vec3 :=
  mkvec3 (x a + x b) (y a + y b) (z a + z b).

Definition vscale (a : vec3) (k : R) : vec3 :=
  mkvec3 (x a * k) (y a * k) (z a * k).

Definition length (a : vec3) : R :=
  sqrt (x a * x a + y a * y a + z a * z a).

(** [normalize] is undefined on the zero vector. *)
Definition normalize (a : vec3) : option vec3 :=
  if Req_dec_T (length a) 0 then None else Some (vscale a (/ length a)).

Definition clamp (v lo hi : R) : R := Rmin (Rmax v lo) hi.

Definition smoothstep (edge0 edge1 v : R) : R :=
  let t := clamp ((v - edge0) / (edge1 - edge0)) 0 1 in
  t * t * (3 - 2 * t).

Definition mix (a b : vec3) (t : R) : vec3 :=
  mkvec3 (x a * (1 - t) + x b * t)
         (y a * (1 - t) + y b * t)
         (z a * (1 - t) + z b * t).

(** [1.0 - pow(1.0 - v, 3.0)]; the shader calls it on the result of
    [smoothstep], so the base of the power is never negative. *)
Definition easeOutCubic (v : R) : R := 1 - (1 - v) ^ 3.

Record Attributes : Type := mkAttributes {
  aScatterPos : vec3;
  aTreePos : vec3;
  aRandom : R;
  aSize : R;
  aColorType : R
}.

Record Uniforms : Type := mkUniforms {
  uTime : R;
  uProgress : R;
  uPixelRatio : R
}.

(** The delay of a particle whose tree position has height [treeY]. *)
Definition delay (treeY : R) : R := treeY * 0.05 + 0.5.

(** The progress of one particle at global progress [t]. *)
Definition localProgress (treeY t : R) : R :=
  let d := delay treeY in
  smoothstep 0 1 (t * (1 + d) - d * (1 - t)).

(** The blended position, before the breathing effect. *)
Definition blend (scatter tree : vec3) (t : R) : vec3 :=
  mix scatter tree (easeOutCubic (localProgress (y tree) t)).

Definition breath (time random : R) : R :=
  sin (time * 2 + random * 10) * 0.05.

(** [finalPos] as [main] leaves it: the blended position, displaced along
    its own direction once the progress exceeds [0.8]. *)
Definition finalPos (a : Attributes) (u : Uniforms) : option vec3 :=
  let p := blend (aScatterPos a) (aTreePos a) (uProgress u) in
  if Rlt_dec 0.8 (uProgress u) then
    match normalize p with
    | Some n => Some (vadd p (vscale n (breath (uTime u) (aRandom a))))
    | None => None
    end
  else Some p.

End Shader.

(* ================================================================= *)
(** ** Buffer attributes, frame sequences and the rest of the scene *)

(** How a [bufferAttribute] is read: vertex [i] of an attribute of item
    size [3] is the three entries from [3 * i] on, of item size [1] the
    entry [i]. *)
Module Attribute.

Definition item3 (a : Float32Array) (i : nat) : option Vector3.t :=
  match load a (i * 3), load a (i * 3 + 1), load a (i * 3 + 2) with
  | Some vx, Some vy, Some vz => Some (Vector3.mk vx vy vz)
  | _, _, _ => None
  end.

Definition item1 (a : Float32Array) (i : nat) : option num := load a i.

(** The attributes the vertex shader receives for one particle. *)
Record Particle : Type := mkParticle {
  position : Vector3.t;
  aScatterPos : Vector3.t;
  aTreePos : Vector3.t;
  aRandom : num;
  aSize : num;
  aColorType : num
}.

(** Particle [i] of a pool, as the six [bufferAttribute]s expose it. *)
Definition particle (a : Foliage.Pool) (i : nat) : option Particle :=
  match item3 (Foliage.positions a) i, item3 (Foliage.scatterPos a) i,
        item3 (Foliage.treePos a) i, item1 (Foliage.randoms a) i,
        item1 (Foliage.sizes a) i, item1 (Foliage.colorTypes a) i with
  | Some p, Some sp, Some tp, Some r, Some sz, Some c =>
      Some (mkParticle p sp tp r sz c)
  | _, _, _, _, _, _ => None
  end.

(** A vector and a particle as the buffers hold them, every number rounded
    to single precision. *)
Definition stored3 (v : Vector3.t) : Vector3.t :=
  Vector3.mk (Math_fround (Vector3.x v)) (Math_fround (Vector3.y v))
             (Math_fround (Vector3.z v)).

Definition stored (p : Particle) : Particle :=
  mkParticle (stored3 (position p)) (stored3 (aScatterPos p))
             (stored3 (aTreePos p)) (Math_fround (aRandom p))
             (Math_fround (aSize p)) (Math_fround (aColorType p)).

(** The particle that one iteration of the generation loop draws from the
    stream [s]: two draws for the tree position, three for the scatter
    position, then one each for the seed, the size and the colour. *)
Definition drawn (cfg : Config) (s : rng) : Particle :=
  let treeP :=
    fst (randomOnTree_default (TREE_HEIGHT cfg) (TREE_RADIUS cfg) s) in
  let scatterP := fst (randomInSphere (Fin 15) (drop 2 s)) in
  mkParticle scatterP scatterP treeP
             (Fin (s 5%nat))
             (Fin (s 6%nat) * Fin 0.5 + Fin 0.5)%js
             (Foliage.colorType (Fin (s 7%nat))).

End Attribute.

(** A finite vector whose three coordinates are at most [B] in magnitude. *)
Definition within (B : R) (v : Vector3.t) : Prop :=
  exists a b c,
    v = Vector3.fin a b c /\ Rabs a <= B /\ Rabs b <= B /\ Rabs c <= B.

(** The render loop of [FoliageSystem]: one call of the frame callback per
    frame, each with the form in force, the clock time and the time since
    the previous frame. *)
Module FoliageLoop.

Record Frame : Type := mkFrame {
  isTreeForm : bool;
  elapsedTime : R;
  delta : R
}.

Fixpoint play (fs : list Frame) (st : Foliage.State) : Foliage.State :=
  match fs with
  | [] => st
  | f :: rest =>
      play rest
        (Foliage.useFrame (isTreeForm f) (Fin (elapsedTime f)) (Fin (delta f)) st)
  end.

(** Frames no longer than two thirds of a second. *)
Definition short (f : Frame) : Prop := 0 <= delta f <= 2 / 3.

(** The progress is a number in [[0,1]] and the uniform carries it. *)
Definition in_sync (st : Foliage.State) : Prop :=
  exists p m,
    st = Foliage.mkState (Fin p) (Some m)
    /\ 0 <= p <= 1 /\ Foliage.uProgress m = Fin p.

End FoliageLoop.

(** [n] consecutive frame updates of one ornament in the same form. *)
Fixpoint Ornament_frames (isTreeForm : bool) (n : nat) (o : Ornament.t)
  : Ornament.t :=
  match n with
  | O => o
  | S k => Ornament_frames isTreeForm k (Ornament.update isTreeForm o)
  end.

(* ================================================================= *)
(** ** [foliageVertexShader]: the colour of a particle *)

Module ShaderColor.
Import Shader.

Definition cDeep : vec3 := mkvec3 0.0 0.15 0.05.
Definition cEmerald : vec3 := mkvec3 0.0 0.55 0.25.
Definition cRed : vec3 := mkvec3 0.95 0.05 0.2.
Definition cSilver : vec3 := mkvec3 0.95 0.98 1.0.
Definition cGold : vec3 := mkvec3 1.0 0.8 0.2.

(** [step(edge, v)]. *)
Definition step (edge v : R) : R := if Rlt_dec v edge then 0 else 1.

Definition baseColor (a : Attributes) (u : Uniforms) : vec3 :=
  if Rlt_dec (aColorType a) 0.5 then
    let heightFactor := (y (aTreePos a) + 6.0) / 12.0 in
    mix cDeep cEmerald
        (heightFactor + breath (uTime u) (aRandom a) * 2.0)
  else if Rlt_dec (aColorType a) 1.5 then cRed
  else if Rlt_dec (aColorType a) 2.5 then cSilver
  else cGold.

Definition glitter (a : Attributes) (u : Uniforms) : R :=
  let threshold := if Rlt_dec 1.5 (aColorType a) then 0.90 else 0.98 in
  step threshold (sin (uTime u * 1.0 + aRandom a * 100.0)).

Definition vColor (a : Attributes) (u : Uniforms) : vec3 :=
  mix (baseColor a u) (mkvec3 1.0 0.9 0.8) (glitter a u * 0.8 * uProgress u).

Definition vAlpha : R := 1.0.

(** A colour whose three channels are in [[0,1]]. *)
Definition valid (c : vec3) : Prop :=
  0 <= x c <= 1 /\ 0 <= y c <= 1 /\ 0 <= z c <= 1.

End ShaderColor.

(* ================================================================= *)
(** ** [foliageFragmentShader] *)

Module Fragment.

(** [pow(b, e)] is undefined for a negative base, and for a zero base
    unless the exponent is positive. *)
Definition pow (b e : R) : option R :=
  match total_order_T b 0 with
  | inleft (left _) => None
  | inleft (right _) => if Rlt_dec 0 e then Some 0 else None
  | inright _ => Some (Rpower b e)
  end.

Inductive Output : Type :=
| Discard
| FragColor (rgb : Shader.vec3) (alpha : R)
| Undefined.

(** [main], for a fragment at [gl_PointCoord = (px, py)]. *)
Definition main (px py : R) (vColor : Shader.vec3) (vAlpha : R) : Output :=
  let cx := px - 0.5 in
  let cy := py - 0.5 in
  let dist := sqrt (cx * cx + cy * cy) in
  if Rlt_dec 0.5 dist then Discard
  else
    match pow (1.0 - dist * 2.0) 1.5 with
    | Some strength => FragColor vColor (vAlpha * strength)
    | None => Undefined
    end.

End Fragment.

(* ================================================================= *)
(** ** [StarTopper] *)

Module Star.

Inductive PathCommand : Type :=
| MoveTo (px py : num)
| LineTo (px py : num)
| ClosePath.

Definition points : nat := 5.
Definition outerRadius : num := Fin 1.
Definition innerRadius : num := Fin 0.45.

(** The vertex the loop computes at index [i]. *)
Definition vertex (i : nat) : num * num :=
  let r := if Nat.eqb (i mod 2) 0 then outerRadius else innerRadius in
  let a := (Fin (INR i) / Fin (INR (points * 2)) * Math_PI * Fin 2)%js in
  ((Math_cos (a + Math_PI / Fin 2) * r)%js,
   (Math_sin (a + Math_PI / Fin 2) * r)%js).

(** [for (let i = i0; i < i0 + n; i++)]: the first vertex starts the path,
    the others extend it. *)
Fixpoint outline (n i : nat) : list PathCommand :=
  match n with
  | O => []
  | S k =>
      let (px, py) := vertex i in
      (if Nat.eqb i 0 then MoveTo px py else LineTo px py)
        :: outline k (S i)
  end.

(** The path of the star, before it is extruded. *)
Definition shape : list PathCommand := outline (points * 2) 0 ++ [ClosePath].

(** What the frame callback reads and writes in the mesh. *)
Record Mesh : Type := mkMesh {
  position : Vector3.t;
  rotation_y : num;
  scale : Vector3.t
}.

(** A mesh as three.js creates it: at the origin, not rotated, of scale
    one. *)
Definition fresh : Mesh :=
  mkMesh (Vector3.fin 0 0 0) (Fin 0) (Vector3.fin 1 1 1).

(** [scale.setScalar(s)]. *)
Definition setScalar (s : num) : Vector3.t := Vector3.mk s s s.

(** The [useFrame] callback; [None] is the unset [meshRef]. *)
Definition useFrame (cfg : Config) (isTreeForm : bool)
    (elapsedTime delta : num) (mesh : option Mesh) : option Mesh :=
  match mesh with
  | None => None
  | Some m =>
      let treeY := (TREE_HEIGHT cfg / Fin 2 + Fin 0.8)%js in
      let scatterY := (TREE_HEIGHT cfg + Fin 2)%js in
      let targetPos :=
        Vector3.mk (Fin 0)
          (if isTreeForm then treeY
           else (scatterY + Math_sin elapsedTime * Fin 0.5)%js)
          (Fin 0) in
      let currentScale := Vector3.x (scale m) in
      let targetScale := if isTreeForm then Fin 0.8 else Fin 0.001 in
      let s := MathUtils_lerp currentScale targetScale (delta * Fin 2.0)%js in
      Some (mkMesh (Vector3.lerp (position m) targetPos (delta * Fin 2.0)%js)
                   (rotation_y m + delta * Fin 0.8)%js
                   (setScalar s))
  end.

(** The render loop of the star, frame by frame. *)
Fixpoint play (cfg : Config) (fs : list FoliageLoop.Frame)
    (mesh : option Mesh) : option Mesh :=
  match fs with
  | [] => mesh
  | f :: rest =>
      play cfg rest
        (useFrame cfg (FoliageLoop.isTreeForm f)
           (Fin (FoliageLoop.elapsedTime f)) (Fin (FoliageLoop.delta f)) mesh)
  end.

(** Frames no longer than half a second. *)
Definition brief (f : FoliageLoop.Frame) : Prop :=
  0 <= FoliageLoop.delta f <= 1 / 2.

(** The total time of a sequence of frames. *)
Fixpoint duration (fs : list FoliageLoop.Frame) : R :=
  match fs with
  | [] => 0
  | f :: rest => FoliageLoop.delta f + duration rest
  end.

(** The star of a tree of height [h] is mounted on the axis of the tree,
    between the ground and its scattered height, and has one positive
    scale along the three axes. *)
Definition steady (h : R) (mesh : option Mesh) : Prop :=
  exists yv r sc,
    mesh = Some (mkMesh (Vector3.fin 0 yv 0) (Fin r) (Vector3.fin sc sc sc))
    /\ 0 <= yv <= h + 2.5 /\ 0.001 <= sc <= 1.

(** The radius of vertex [i], as a real number. *)
Definition radiusOf (i : nat) : R := if Nat.eqb (i mod 2) 0 then 1 else 0.45.

(** The angle of vertex [i], as a real number. *)
Definition angleOf (i : nat) : R := INR i / INR 10 * PI * 2 + PI / 2.

End Star.

(* ================================================================= *)
(** * Properties *)

(** ** Arithmetic of finite numbers *)

Lemma div_fin (a b : R) : b <> 0 -> (Fin a / Fin b)%js = Fin (a / b).
Proof.
  intros Hb. unfold div. destruct (Req_dec_T b 0) as [E | _]; [contradiction | reflexivity].
Qed.

Lemma div_zero_zero : (Fin 0 / Fin 0)%js = NaN.
Proof.
  unfold div. destruct (Req_dec_T 0 0) as [_ | N]; [| now elim N].
  unfold scale_inf. destruct (total_order_T 0 0) as [[H | _] | H]; try reflexivity; lra.
Qed.

Lemma le_fin_true (a b : R) : a <= b -> le (Fin a) (Fin b) = true.
Proof. intros H. unfold le. destruct (Rle_dec a b); [reflexivity | contradiction]. Qed.

Lemma Fin_inj (a b : R) : Fin a = Fin b -> a = b.
Proof. intros H. now injection H. Qed.

(** ** The progress update of [FoliageSystem] *)

Module FoliageFacts.
Import Foliage.

Lemma useFrame_mounted b t dt p m :
  useFrame b t (Fin dt) (mkState (Fin p) (Some m)) =
  let q := p + (targetOf b - p) * (1.5 * dt) in
  mkState (Fin q) (Some (mkMesh t (Fin q) (t * Fin 0.05 * Fin q)%js)).
Proof.
  unfold useFrame, MathUtils_lerp; cbn.
  assert (E : (1 + - (dt * 1.5)) * p + dt * 1.5 * targetOf b
              = p + (targetOf b - p) * (1.5 * dt)) by ring.
  destruct b; cbn in *; rewrite E; reflexivity.
Qed.

Lemma useFrame_unmounted b t dt p :
  useFrame b t dt (mkState p None) = mkState p None.
Proof. reflexivity. Qed.

(** Closed form of the progress after [n] frames toward the tree form. *)
Lemma frames_progress dt n : forall t0 p m,
  progress (frames true dt n t0 (mkState (Fin p) (Some m))) =
  Fin (1 - (1 - p) * (1 - 1.5 * dt) ^ n).
Proof.
  induction n as [| n IH]; intros t0 p m.
  - cbn. f_equal. ring.
  - cbn [frames]. rewrite useFrame_mounted. cbv zeta. rewrite IH.
    f_equal. cbn [targetOf pow]. ring.
Qed.

(** C1, as amended: with the mesh mounted, every tick moves the progress by
    the fraction [1.5 * dt] of its gap to the target, for every [dt]; this
    factor is not capped, and it is the capped factor [min(1, 1.5 * dt)]
    of the specification whenever [dt <= 2/3]. *)
Theorem useFrame_progress_uncapped b t dt p m :
  progress (useFrame b t (Fin dt) (mkState (Fin p) (Some m)))
  = Fin (p + (targetOf b - p) * (1.5 * dt))
  /\ (dt <= 2 / 3 ->
      progress (useFrame b t (Fin dt) (mkState (Fin p) (Some m)))
      = Fin (p + (targetOf b - p) * Rmin 1 (1.5 * dt))).
Proof.
  rewrite useFrame_mounted. cbn. split; [reflexivity |].
  intros H. rewrite Rmin_right by lra. reflexivity.
Qed.

Lemma useFrame_progress_uncapped_witness :
  1 / 2 <= 2 / 3
  /\ progress (useFrame true (Fin 1) (Fin (1 / 2)) mounted)
     = Fin (0 + (targetOf true - 0) * Rmin 1 (1.5 * (1 / 2))).
Proof.
  split; [lra |].
  apply (proj2 (useFrame_progress_uncapped true (Fin 1) (1 / 2) 0
                  (mkMesh (Fin 0) (Fin 0) (Fin 0)))).
  lra.
Defined.

(** C1 fails as stated: one tick of one second from progress [0] toward
    the tree form gives [1.5], where the capped formula gives [1]. *)
Lemma useFrame_progress_capped_counterexample :
  progress (useFrame true (Fin 1) (Fin 1) mounted) = Fin 1.5
  /\ progress (useFrame true (Fin 1) (Fin 1) mounted)
     <> Fin (0 + (targetOf true - 0) * Rmin 1 (1.5 * 1)).
Proof.
  unfold mounted. rewrite useFrame_mounted. cbn. split.
  - f_equal. lra.
  - intros H. apply Fin_inj in H. rewrite Rmin_left in H by lra. lra.
Qed.

(** C2, as amended: from progress [0] toward the tree form, with a fixed
    [dt] such that [0 < dt <= 2/3], the progress after [n] frames is
    [1 - (1 - 1.5 dt)^n]; it stays in [[0,1]], never decreases, and comes
    within any distance of [1]. *)
Theorem frames_progress_bounded dt (Hpos : 0 < dt) (Hdt : dt <= 2 / 3) :
  let p := fun n => 1 - (1 - 1.5 * dt) ^ n in
  (forall n t0, progress (frames true dt n t0 mounted) = Fin (p n))
  /\ (forall n, 0 <= p n <= 1 /\ p n <= p (S n))
  /\ (forall eps, 0 < eps -> exists N, forall n, (N <= n)%nat -> 1 - eps < p n).
Proof.
  intros p. subst p. cbv beta.
  assert (Hq : 0 <= 1 - 1.5 * dt < 1) by lra.
  assert (Hpow : forall n, 0 <= (1 - 1.5 * dt) ^ n <= 1).
  { intros n. split; [apply pow_le; lra |].
    apply Rle_trans with (1 ^ n); [apply pow_incr; lra | rewrite pow1; lra]. }
  split; [| split].
  - intros n t0. unfold mounted. rewrite frames_progress. f_equal. ring.
  - intros n. specialize (Hpow n). cbn [pow]. split; [lra |]. nra.
  - intros eps Heps.
    destruct (pow_lt_1_zero (1 - 1.5 * dt)) with (y := eps) as [N HN]; trivial.
    { rewrite Rabs_pos_eq; lra. }
    exists N. intros n Hn. specialize (HN n Hn).
    rewrite Rabs_pos_eq in HN by apply Hpow. lra.
Qed.

Lemma frames_progress_bounded_witness :
  0 < 1 / 2 /\ 1 / 2 <= 2 / 3
  /\ progress (frames true (1 / 2) 2 0 mounted)
     = Fin (1 - (1 - 1.5 * (1 / 2)) ^ 2)
  /\ 0 <= 1 - (1 - 1.5 * (1 / 2)) ^ 2 <= 1.
Proof.
  assert (Hpos : 0 < 1 / 2) by lra.
  assert (Hdt : 1 / 2 <= 2 / 3) by lra.
  destruct (frames_progress_bounded (1 / 2) Hpos Hdt) as [H1 [H2 _]].
  repeat split; try assumption; [apply H1 | apply (H2 2%nat) ..].
Defined.

(** C2 fails as stated: with [dt = 1] the first frame takes the progress
    from [0] to [1.5], above [1]. *)
Lemma frames_progress_exceeds_one :
  exists p, progress (frames true 1 1 0 mounted) = Fin p /\ 1 < p.
Proof.
  exists (1 - (1 - 0) * (1 - 1.5 * 1) ^ 1). split.
  - unfold mounted. apply frames_progress.
  - lra.
Qed.

End FoliageFacts.

(* ================================================================= *)
(** ** Facts about the point generators *)

Lemma cbrt_cube (x : R) : cbrt x ^ 3 = x.
Proof.
  assert (P : forall a, 0 < a -> Rpower a (/ 3) ^ 3 = a).
  { intros a Ha. rewrite <- Rpower_pow by apply exp_pos.
    rewrite Rpower_mult. replace (/ 3 * INR 3) with 1 by (cbn; field).
    now apply Rpower_1. }
  unfold cbrt. destruct (total_order_T x 0) as [[H | H] | H].
  - replace ((- Rpower (- x) (/ 3)) ^ 3) with (- Rpower (- x) (/ 3) ^ 3) by ring.
    rewrite P by lra. ring.
  - subst x. ring.
  - now apply P.
Qed.

Lemma cbrt_unit (u : R) : 0 <= u < 1 -> 0 <= cbrt u < 1.
Proof.
  intros [H0 H1]. unfold cbrt.
  destruct (total_order_T u 0) as [[H | H] | H]; try lra.
  unfold Rpower. split; [left; apply exp_pos |].
  rewrite <- exp_0. apply exp_increasing.
  assert (L : ln u < 0) by (rewrite <- ln_1; apply ln_increasing; lra).
  nra.
Qed.

Section Generators.

Variable s : rng.
Hypothesis draws : in_unit s.

(** The scatter point in closed form. *)
Lemma randomInSphere_fin (radius : R) :
  randomInSphere (Fin radius) s =
  (let theta := 2 * PI * s 0%nat in
   let phi := acos (2 * s 1%nat - 1) in
   let r := cbrt (s 2%nat) * radius in
   Vector3.fin (r * sin phi * cos theta) (r * sin phi * sin theta) (r * cos phi),
   drop 3 s).
Proof.
  unfold randomInSphere, bind, Math_random, ret, Vector3.fin; cbn.
  pose proof (draws 1%nat) as H1. unfold drop; cbn.
  replace (2 * s 1%nat + - (1)) with (2 * s 1%nat - 1) by ring.
  destruct (Rle_dec (-1) (2 * s 1%nat - 1)) as [_ | N]; [| exfalso; lra].
  destruct (Rle_dec (2 * s 1%nat - 1) 1) as [_ | N]; [| exfalso; lra].
  reflexivity.
Qed.

(** The height coordinate of a formation point never involves the division
    by [height]; it is finite for all finite height and ratios. *)
Lemma randomOnTree_y (height yMin yMax : R) (radiusBase : num) :
  Vector3.y (fst (randomOnTree (Fin height) radiusBase (Fin yMin) (Fin yMax) s))
  = Fin (s 0%nat * (height * yMax - height * yMin) + height * yMin - height / 2).
Proof.
  unfold randomOnTree, bind, Math_random, ret. cbv beta iota zeta.
  cbn [fst Vector3.y]. rewrite div_fin by lra. cbn. f_equal; ring.
Qed.

(** The formation point in closed form, away from [height = 0] and with
    both ratios in [[0,1]]. *)
Lemma randomOnTree_fin (height radiusBase yMin yMax : R) :
  height <> 0 -> 0 <= yMin <= 1 -> 0 <= yMax <= 1 ->
  exists r,
    randomOnTree (Fin height) (Fin radiusBase) (Fin yMin) (Fin yMax) s =
    (let y := s 0%nat * (height * yMax - height * yMin) + height * yMin in
     let theta := s 1%nat * PI * 2 in
     let layerNoise := sin (y * 3.0) * 0.15 in
     Vector3.fin ((r + layerNoise) * cos theta) (y - height / 2)
                 ((r + layerNoise) * sin theta),
     drop 2 s).
Proof.
  intros Hh Hmin Hmax.
  pose proof (draws 0%nat) as H0.
  set (yv := s 0%nat * (height * yMax - height * yMin) + height * yMin).
  assert (Hq : yv / height = s 0%nat * (yMax - yMin) + yMin)
    by (unfold yv; field; exact Hh).
  assert (Hpct : 0 <= 1 - yv / height) by (rewrite Hq; nra).
  assert (Hy : (Fin (s 0%nat) * (Fin height * Fin yMax - Fin height * Fin yMin)
                + Fin height * Fin yMin)%js = Fin yv)
    by (cbn; f_equal; unfold yv; ring).
  unfold randomOnTree, bind, Math_random, ret. cbv zeta.
  rewrite Hy. rewrite !div_fin by lra.
  assert (Hp : exists q, Math_pow (Fin 1 - Fin (yv / height))%js 1.2 = Fin q).
  { cbn. destruct (total_order_T (1 + - (yv / height)) 0) as [[H | H] | H].
    - exfalso; lra.
    - now eexists.
    - now eexists. }
  destruct Hp as [q Hp]. rewrite Hp. exists (radiusBase * q).
  cbn. unfold Vector3.fin, drop. cbn. repeat f_equal.
Qed.

(** At [height = 0] the quotient [y / height] is [0/0]: the height
    coordinate is [0], the two horizontal coordinates are NaN. *)
Lemma randomOnTree_height_zero (yMin yMax : R) (radiusBase : num) :
  fst (randomOnTree (Fin 0) radiusBase (Fin yMin) (Fin yMax) s)
  = Vector3.mk NaN (Fin 0) NaN.
Proof.
  assert (Hy : (Fin (s 0%nat) * (Fin 0 * Fin yMax - Fin 0 * Fin yMin)
                + Fin 0 * Fin yMin)%js = Fin 0)
    by (cbn; f_equal; ring).
  unfold randomOnTree, bind, Math_random, ret. cbv zeta.
  rewrite Hy, div_zero_zero. rewrite div_fin by lra.
  cbn. destruct radiusBase; cbn; repeat f_equal; field.
Qed.

End Generators.

Lemma halves_in_unit : in_unit halves.
Proof. intros n. unfold halves. lra. Qed.

(** C8: for every radius [>= 0] and all draws, the scatter point lies
    within the sphere: [point.length() <= radius]. *)
Theorem randomInSphere_within_radius (radius : R) (s : rng) :
  0 <= radius -> in_unit s ->
  le (Vector3.length (fst (randomInSphere (Fin radius) s))) (Fin radius) = true.
Proof.
  intros Hr Hs. rewrite (randomInSphere_fin s Hs). cbv zeta. cbn [fst].
  set (theta := 2 * PI * s 0%nat).
  set (phi := acos (2 * s 1%nat - 1)).
  set (r := cbrt (s 2%nat) * radius).
  assert (Hc : 0 <= cbrt (s 2%nat) < 1) by (apply cbrt_unit, Hs).
  assert (Hr0 : 0 <= r) by (unfold r; nra).
  assert (Hr1 : r <= radius) by (unfold r; nra).
  assert (Hsum : r * sin phi * cos theta * (r * sin phi * cos theta)
                 + r * sin phi * sin theta * (r * sin phi * sin theta)
                 + r * cos phi * (r * cos phi) = r * r).
  { pose proof (sin2_cos2 theta) as Ht. pose proof (sin2_cos2 phi) as Hp.
    unfold Rsqr in Ht, Hp.
    transitivity (r * r * (sin phi * sin phi
                           * (sin theta * sin theta + cos theta * cos theta)
                           + cos phi * cos phi)); [ring |].
    rewrite Ht, Rmult_1_r, Hp. ring. }
  unfold Vector3.length, Vector3.fin. cbn. rewrite Hsum.
  destruct (Rlt_dec (r * r) 0) as [N | _]; [exfalso; nra |].
  apply le_fin_true. rewrite sqrt_square by exact Hr0. exact Hr1.
Qed.

Lemma randomInSphere_within_radius_witness :
  0 <= 15 /\ in_unit halves
  /\ le (Vector3.length (fst (randomInSphere (Fin 15) halves))) (Fin 15) = true.
Proof.
  assert (Hr : 0 <= 15) by lra.
  repeat split; [exact Hr | apply halves_in_unit .. |].
  exact (randomInSphere_within_radius 15 halves Hr halves_in_unit).
Defined.

(** C7: with the default band [0..1] the height coordinate of a formation
    point lies in [[-height/2, height/2]], and in the band [0..0.4] of a
    tree of height [12] it is at most [-1.2]; both for all draws and every
    base radius. *)
Theorem randomOnTree_height_band (s : rng) (radiusBase : num) (Hs : in_unit s) :
  (forall height, 0 <= height ->
     exists yv,
       Vector3.y (fst (randomOnTree_default (Fin height) radiusBase s)) = Fin yv
       /\ - height / 2 <= yv <= height / 2)
  /\ (exists yv,
        Vector3.y (fst (randomOnTree (Fin 12) radiusBase (Fin 0) (Fin 0.4) s))
        = Fin yv
        /\ yv <= -1.2).
Proof.
  pose proof (Hs 0%nat) as H0. split.
  - intros height Hh. unfold randomOnTree_default. rewrite randomOnTree_y.
    eexists; split; [reflexivity |]. nra.
  - rewrite randomOnTree_y. eexists; split; [reflexivity |]. nra.
Qed.

Lemma randomOnTree_height_band_witness :
  in_unit halves /\ 0 <= 12
  /\ (exists yv,
        Vector3.y (fst (randomOnTree_default (Fin 12) (Fin 4.5) halves)) = Fin yv
        /\ - 12 / 2 <= yv <= 12 / 2)
  /\ (exists yv,
        Vector3.y (fst (randomOnTree (Fin 12) (Fin 4.5) (Fin 0) (Fin 0.4) halves))
        = Fin yv
        /\ yv <= -1.2).
Proof.
  assert (Hh : 0 <= 12) by lra.
  destruct (randomOnTree_height_band halves (Fin 4.5) halves_in_unit) as [A B].
  split; [apply halves_in_unit |]. split; [exact Hh |].
  split; [exact (A 12 Hh) | exact B].
Defined.

(** C5, as amended: both generators return a point for every input; the
    scatter point is finite for every finite radius, the formation point
    is finite for finite inputs with [height <> 0], [|height| <= 1e300]
    and both ratios in [[0,1]]; at [height = 0] the height coordinate is
    [0] and the two horizontal coordinates are NaN.  (The bound on the
    height keeps the product [y * 3.0] of the program, whose arithmetic
    overflows where this model's does not, away from [Infinity].) *)
Theorem generators_finite (s : rng) (Hs : in_unit s) :
  (forall radius, Vector3.finite (fst (randomInSphere (Fin radius) s)))
  /\ (forall height radiusBase yMin yMax,
        height <> 0 -> Rabs height <= 1e300 ->
        0 <= yMin <= 1 -> 0 <= yMax <= 1 ->
        Vector3.finite
          (fst (randomOnTree (Fin height) (Fin radiusBase) (Fin yMin) (Fin yMax) s)))
  /\ (forall radiusBase yMin yMax,
        fst (randomOnTree (Fin 0) radiusBase (Fin yMin) (Fin yMax) s)
        = Vector3.mk NaN (Fin 0) NaN).
Proof.
  split; [| split].
  - intros radius. rewrite (randomInSphere_fin s Hs). cbv zeta. cbn [fst].
    unfold Vector3.finite, Vector3.fin, is_finite. cbn. repeat split; now eexists.
  - intros height radiusBase yMin yMax Hh _ Hmin Hmax.
    destruct (randomOnTree_fin s Hs height radiusBase yMin yMax Hh Hmin Hmax)
      as [r E].
    rewrite E. cbv zeta. cbn [fst].
    unfold Vector3.finite, Vector3.fin, is_finite. cbn. repeat split; now eexists.
  - intros radiusBase yMin yMax. apply randomOnTree_height_zero.
Qed.

Lemma generators_finite_witness :
  in_unit halves /\ 12 <> 0 /\ Rabs 12 <= 1e300
  /\ 0 <= 0 <= 1 /\ 0 <= 1 <= 1
  /\ Vector3.finite
       (fst (randomOnTree (Fin 12) (Fin 4.5) (Fin 0) (Fin 1) halves)).
Proof.
  assert (Hh : 12 <> 0) by lra.
  assert (Hb : Rabs 12 <= 1e300) by (rewrite Rabs_pos_eq; lra).
  assert (H0 : 0 <= 0 <= 1) by lra.
  assert (H1 : 0 <= 1 <= 1) by lra.
  split; [apply halves_in_unit |].
  split; [exact Hh |]. split; [exact Hb |].
  split; [exact H0 |]. split; [exact H1 |].
  exact (proj1 (proj2 (generators_finite halves halves_in_unit))
           12 4.5 0 1 Hh Hb H0 H1).
Defined.

(** C5 fails as stated: the formation point for [height = 0] has NaN as
    its first coordinate. *)
Lemma randomOnTree_height_zero_nan :
  Vector3.x (fst (randomOnTree_default (Fin 0) (Fin 4.5) halves)) = NaN.
Proof.
  unfold randomOnTree_default. rewrite randomOnTree_height_zero. reflexivity.
Qed.

(* ================================================================= *)
(** ** Rounding to single precision *)

Lemma Rabs_le_inv (a b : R) : Rabs a <= b -> - b <= a <= b.
Proof. unfold Rabs. destruct (Rcase_abs a); lra. Qed.

Lemma bpow_pos e : 0 < bpow e.
Proof. apply powerRZ_lt. lra. Qed.

Lemma bpow_add a b : bpow (a + b) = bpow a * bpow b.
Proof. apply powerRZ_add. lra. Qed.

Lemma ln2_pos : 0 < ln 2.
Proof. rewrite <- ln_1. apply ln_increasing; lra. Qed.

Lemma ln_bpow e : ln (bpow e) = IZR e * ln 2.
Proof. unfold bpow. rewrite powerRZ_Rpower by lra. unfold Rpower. apply ln_exp. Qed.

Lemma bpow_le a b : (a <= b)%Z -> bpow a <= bpow b.
Proof.
  intros H. unfold bpow. rewrite !powerRZ_Rpower by lra. unfold Rpower.
  destruct (Z.eq_dec a b) as [-> | N]; [lra |].
  left. apply exp_increasing. apply Rmult_lt_compat_r; [apply ln2_pos |].
  apply IZR_lt. lia.
Qed.

Lemma bpow_nonneg_IZR k : (0 <= k)%Z -> bpow k = IZR (2 ^ k).
Proof.
  intros H. unfold bpow. rewrite <- (Z2Nat.id k) by exact H.
  rewrite <- pow_powerRZ. now rewrite pow_IZR.
Qed.

(** A multiple of [2^j] is a multiple of [2^e] for [e <= j]. *)
Lemma on_finer_grid e j k :
  (e <= j)%Z -> IZR k * bpow j = IZR (k * 2 ^ (j - e)) * bpow e.
Proof.
  intros H. rewrite mult_IZR, <- bpow_nonneg_IZR by lia.
  rewrite Rmult_assoc, <- bpow_add. do 2 f_equal. lia.
Qed.

Lemma Int_part_le r k : r <= IZR k -> (Int_part r <= k)%Z.
Proof.
  intros H. destruct (base_Int_part r) as [H1 _]. apply le_IZR. lra.
Qed.

Lemma Int_part_ge r k : IZR k <= r -> (k <= Int_part r)%Z.
Proof.
  intros H. destruct (base_Int_part r) as [_ H2].
  assert (L : IZR k < IZR (Int_part r) + 1) by lra.
  rewrite <- plus_IZR in L. apply lt_IZR in L. lia.
Qed.

Lemma log2_floor_le x n : 0 < x -> x <= bpow n -> (log2_floor x <= n)%Z.
Proof.
  intros Hx H. unfold log2_floor. apply Int_part_le.
  pose proof ln2_pos as L2.
  assert (Hl : ln x <= ln (bpow n)).
  { destruct H as [H | ->]; [left; now apply ln_increasing | lra]. }
  rewrite ln_bpow in Hl.
  apply Rmult_le_reg_r with (r := ln 2); [exact L2 |].
  unfold Rdiv. rewrite Rmult_assoc, Rinv_l by lra. lra.
Qed.

Lemma f32_exp_le x j :
  x <> 0 -> Rabs x <= bpow (23 + j) -> (-149 <= j)%Z -> (f32_exp x <= j)%Z.
Proof.
  intros Hx H Hj. unfold f32_exp.
  assert (Hp : 0 < Rabs x) by now apply Rabs_pos_lt.
  pose proof (log2_floor_le (Rabs x) (23 + j) Hp H). lia.
Qed.

Lemma rne_cases t : rne t = Int_part t \/ rne t = (Int_part t + 1)%Z.
Proof.
  unfold rne. cbv zeta.
  destruct (total_order_T (t - IZR (Int_part t)) (1 / 2)) as [[H | H] | H]; auto.
  destruct (Z.even (Int_part t)); auto.
Qed.

Lemma rne_between t ka kb :
  IZR ka <= t -> t <= IZR kb -> (ka <= rne t <= kb)%Z.
Proof.
  intros Ha Hb.
  pose proof (Int_part_ge t ka Ha) as H1.
  pose proof (Int_part_le t kb Hb) as H2.
  destruct (base_Int_part t) as [F1 F2].
  unfold rne. cbv zeta.
  destruct (total_order_T (t - IZR (Int_part t)) (1 / 2)) as [[H | H] | H].
  - lia.
  - assert (Hlt : IZR (Int_part t) < IZR kb) by lra.
    apply lt_IZR in Hlt. destruct (Z.even (Int_part t)); lia.
  - assert (Hlt : IZR (Int_part t) < IZR kb) by lra.
    apply lt_IZR in Hlt. lia.
Qed.

Lemma rne_close t : Rabs (IZR (rne t) - t) <= 1 / 2.
Proof.
  destruct (base_Int_part t) as [F1 F2]. unfold rne. cbv zeta.
  destruct (total_order_T (t - IZR (Int_part t)) (1 / 2)) as [[H | H] | H].
  - apply Rabs_le. lra.
  - destruct (Z.even (Int_part t)); [| rewrite plus_IZR]; apply Rabs_le; lra.
  - rewrite plus_IZR. apply Rabs_le. lra.
Qed.

(** Rounding keeps a number between two multiples of [2^j] when its own
    grid is at least as fine, and does not overflow below [2^23]. *)
Lemma fround_dyadic j x ka kb :
  (-149 <= j <= 0)%Z -> Rabs x <= bpow (23 + j) ->
  IZR ka * bpow j <= x <= IZR kb * bpow j ->
  exists y, Math_fround (Fin x) = Fin y
            /\ IZR ka * bpow j <= y <= IZR kb * bpow j.
Proof.
  intros Hj Hx [Ha Hb]. unfold Math_fround.
  destruct (Req_dec_T x 0) as [E | N].
  - exists 0. split; [reflexivity |]. subst x. lra.
  - cbv zeta. set (e := f32_exp x).
    assert (He : (e <= j)%Z) by (apply f32_exp_le; [exact N | exact Hx | lia]).
    pose proof (bpow_pos e) as Pe.
    set (t := x / bpow e).
    assert (Et : x = t * bpow e) by (unfold t; field; lra).
    rewrite (on_finer_grid e j ka He) in Ha.
    rewrite (on_finer_grid e j kb He) in Hb.
    assert (Ta : IZR (ka * 2 ^ (j - e)) <= t).
    { apply Rmult_le_reg_r with (r := bpow e); [exact Pe | lra]. }
    assert (Tb : t <= IZR (kb * 2 ^ (j - e))).
    { apply Rmult_le_reg_r with (r := bpow e); [exact Pe | lra]. }
    destruct (rne_between t _ _ Ta Tb) as [Ra Rb].
    apply IZR_le in Ra, Rb.
    pose proof (rne_close t) as Hc. apply Rabs_le_inv in Hc as Hc'.
    set (y := IZR (rne t) * bpow e).
    assert (Hy : Rabs y <= bpow 23 + 1).
    { assert (Pj : bpow e <= 1).
      { replace 1 with (bpow 0) by reflexivity. apply bpow_le. lia. }
      assert (P23 : bpow (23 + j) <= bpow 23) by (apply bpow_le; lia).
      apply Rabs_le_inv in Hx.
      assert (Hd : - bpow e <= y - x <= bpow e).
      { unfold y. rewrite Et at 1 2. destruct Hc' as [C1 C2]. split; nra. }
      apply Rabs_le. lra. }
    destruct (Rle_dec (bpow 128) (Rabs y)) as [O | _].
    + exfalso.
      assert (bpow 24 <= bpow 128) by (apply bpow_le; lia).
      assert (bpow 24 = 2 * bpow 23).
      { replace 24%Z with (1 + 23)%Z by lia. rewrite bpow_add.
        f_equal. unfold bpow, powerRZ. simpl. lra. }
      assert (bpow 1 <= bpow 23) by (apply bpow_le; lia).
      assert (bpow 1 = 2) by (unfold bpow, powerRZ; simpl; lra).
      lra.
    + exists y. split; [reflexivity |].
      rewrite (on_finer_grid e j ka He), (on_finer_grid e j kb He).
      unfold y. split; apply Rmult_le_compat_r; lra.
Qed.

(** Rounding keeps a number of magnitude at most [2^23] between the
    integers that bound it. *)
Lemma fround_int x ka kb :
  Rabs x <= bpow 23 -> IZR ka <= x <= IZR kb ->
  exists y, Math_fround (Fin x) = Fin y /\ IZR ka <= y <= IZR kb.
Proof.
  intros Hx Hb.
  destruct (fround_dyadic 0 x ka kb) as (y & E & B).
  - lia.
  - exact Hx.
  - change (bpow 0) with 1. lra.
  - exists y. split; [exact E |]. change (bpow 0) with 1 in B. lra.
Qed.

(** The same between halves of integers, for a magnitude at most [2^22]. *)
Lemma fround_half x ka kb :
  Rabs x <= bpow 22 -> IZR ka / 2 <= x <= IZR kb / 2 ->
  exists y, Math_fround (Fin x) = Fin y /\ IZR ka / 2 <= y <= IZR kb / 2.
Proof.
  intros Hx Hb.
  assert (Eh : bpow (-1) = / 2) by (unfold bpow, powerRZ; simpl; lra).
  destruct (fround_dyadic (-1) x ka kb) as (y & E & B).
  - lia.
  - exact Hx.
  - rewrite Eh. lra.
  - exists y. split; [exact E |]. rewrite Eh in B. lra.
Qed.

(** The integers of magnitude at most [2^23] are single-precision numbers. *)
Lemma fround_IZR k :
  Rabs (IZR k) <= bpow 23 -> Math_fround (Fin (IZR k)) = Fin (IZR k).
Proof.
  intros H. destruct (fround_int (IZR k) k k H) as (y & E & B); [lra |].
  rewrite E. f_equal. lra.
Qed.

Lemma bpow_23 : bpow 23 = 8388608.
Proof. unfold bpow, powerRZ. simpl. lra. Qed.

(** The binary logarithm, between two consecutive powers of two. *)
Lemma log2_floor_spec x k :
  bpow k <= x < bpow (k + 1) -> log2_floor x = k.
Proof.
  intros [H1 H2]. pose proof (bpow_pos k) as Pk. pose proof ln2_pos as L2.
  assert (Hx : 0 < x) by lra.
  assert (La : IZR k * ln 2 <= ln x).
  { rewrite <- ln_bpow. destruct H1 as [H1 | <-]; [left; now apply ln_increasing | lra]. }
  assert (Lb : ln x < IZR (k + 1) * ln 2).
  { rewrite <- ln_bpow. now apply ln_increasing. }
  rewrite plus_IZR in Lb.
  unfold log2_floor. symmetry. apply Int_part_spec.
  assert (E : ln x / ln 2 * ln 2 = ln x) by (field; lra).
  split.
  - apply Rmult_lt_reg_r with (r := ln 2); [exact L2 |]. nra.
  - apply Rmult_le_reg_r with (r := ln 2); [exact L2 |]. nra.
Qed.

Lemma Int_part_eq t k : IZR k <= t < IZR k + 1 -> Int_part t = k.
Proof. intros H. symmetry. apply Int_part_spec. lra. Qed.

(** One tenth is not a single-precision number: it is stored as
    [13421773 / 2^27]. *)
Example fround_tenth : Math_fround (Fin 0.1) = Fin (13421773 / 134217728).
Proof.
  assert (B4 : bpow (-4) = / 16) by (unfold bpow, powerRZ; simpl; lra).
  assert (B3 : bpow (-4 + 1) = / 8) by (unfold bpow, powerRZ; simpl; lra).
  assert (B27 : bpow (-27) = / 134217728) by (unfold bpow, powerRZ; simpl; lra).
  assert (B128 : 2 <= bpow 128).
  { replace 2 with (bpow 1) by (unfold bpow, powerRZ; simpl; lra).
    apply bpow_le. lia. }
  assert (Ee : f32_exp 0.1 = (-27)%Z).
  { unfold f32_exp. rewrite Rabs_pos_eq by lra.
    rewrite (log2_floor_spec 0.1 (-4)) by (rewrite B4, B3; lra). reflexivity. }
  unfold Math_fround. destruct (Req_dec_T 0.1 0) as [E | _]; [exfalso; lra |].
  cbv zeta. rewrite Ee, B27.
  assert (Ei : Int_part (0.1 / / 134217728) = 13421772%Z)
    by (apply Int_part_eq; lra).
  assert (Er : rne (0.1 / / 134217728) = 13421773%Z).
  { unfold rne. cbv zeta. rewrite Ei.
    destruct (total_order_T (0.1 / / 134217728 - 13421772) (1 / 2))
      as [[L | L] | L]; [exfalso; lra | exfalso; lra | reflexivity]. }
  rewrite Er.
  destruct (Rle_dec (bpow 128) (Rabs (13421773 * / 134217728))) as [O | _].
  - exfalso. rewrite Rabs_pos_eq in O by lra. lra.
  - reflexivity.
Qed.

(** The number just below one that lies halfway between two
    single-precision numbers is stored as one. *)
Example fround_below_one : Math_fround (Fin (1 - / 33554432)) = Fin 1.
Proof.
  assert (B1 : bpow (-1) = / 2) by (unfold bpow, powerRZ; simpl; lra).
  assert (B0 : bpow (-1 + 1) = 1) by reflexivity.
  assert (B24 : bpow (-24) = / 16777216) by (unfold bpow, powerRZ; simpl; lra).
  assert (B128 : 2 <= bpow 128).
  { replace 2 with (bpow 1) by (unfold bpow, powerRZ; simpl; lra).
    apply bpow_le. lia. }
  set (x := 1 - / 33554432).
  assert (Hx : 1 / 2 <= x < 1) by (unfold x; lra).
  assert (Ee : f32_exp x = (-24)%Z).
  { unfold f32_exp. rewrite Rabs_pos_eq by lra.
    rewrite (log2_floor_spec x (-1)) by (rewrite B1, B0; lra). reflexivity. }
  unfold Math_fround. destruct (Req_dec_T x 0) as [E | _]; [exfalso; lra |].
  cbv zeta. rewrite Ee, B24.
  assert (Et : x / / 16777216 = 16777215 + 1 / 2) by (unfold x; lra).
  assert (Ei : Int_part (x / / 16777216) = 16777215%Z)
    by (apply Int_part_eq; lra).
  assert (Er : rne (x / / 16777216) = 16777216%Z).
  { unfold rne. cbv zeta. rewrite Ei.
    destruct (total_order_T (x / / 16777216 - 16777215) (1 / 2))
      as [[L | L] | L]; [exfalso; lra | reflexivity | exfalso; lra]. }
  rewrite Er.
  destruct (Rle_dec (bpow 128) (Rabs (16777216 * / 16777216))) as [O | _].
  - exfalso. rewrite Rabs_pos_eq in O by lra. lra.
  - f_equal. lra.
Qed.

(** From [2^128] on the store gives an infinity. *)
Example fround_overflow : Math_fround (Fin (bpow 128)) = Inf true.
Proof.
  pose proof (bpow_pos 128) as P. pose proof (bpow_pos 105) as P105.
  assert (Ee : f32_exp (bpow 128) = 105%Z).
  { unfold f32_exp. rewrite Rabs_pos_eq by lra.
    rewrite (log2_floor_spec (bpow 128) 128); [reflexivity |].
    split; [lra |].
    replace (128 + 1)%Z with (1 + 128)%Z by lia. rewrite bpow_add.
    assert (E1 : bpow 1 = 2) by (unfold bpow, powerRZ; simpl; lra).
    rewrite E1. lra. }
  unfold Math_fround.
  destruct (Req_dec_T (bpow 128) 0) as [E | _]; [exfalso; lra |].
  cbv zeta. rewrite Ee.
  assert (Et : bpow 128 / bpow 105 = IZR 8388608).
  { replace 128%Z with (23 + 105)%Z by lia. rewrite bpow_add, bpow_23.
    field. lra. }
  rewrite Et.
  assert (Er : rne (IZR 8388608) = 8388608%Z).
  { pose proof (rne_between (IZR 8388608) 8388608 8388608) as H.
    specialize (H ltac:(lra) ltac:(lra)). lia. }
  rewrite Er.
  assert (Ey : IZR 8388608 * bpow 105 = bpow 128).
  { replace 128%Z with (23 + 105)%Z by lia. rewrite bpow_add, bpow_23. reflexivity. }
  rewrite Ey.
  destruct (Rle_dec (bpow 128) (Rabs (bpow 128))) as [_ | N].
  - destruct (Rlt_dec 0 (bpow 128)) as [_ | N]; [reflexivity | contradiction].
  - exfalso. apply N. rewrite Rabs_pos_eq; lra.
Qed.

(* ================================================================= *)
(** ** Generation of the particle pool *)

Lemma store_length (a : Float32Array) : forall i v,
  length (store a i v) = length a.
Proof.
  induction a as [| h rest IH]; intros [| j] v; cbn; auto.
Qed.

Lemma load_store_eq (a : Float32Array) : forall i v,
  (i < length a)%nat -> load (store a i v) i = Some (Math_fround v).
Proof.
  unfold load. induction a as [| h rest IH]; intros [| j] v H; cbn [store nth_error];
    cbn [length] in H; try lia; auto. apply IH. lia.
Qed.

Lemma load_store_ne (a : Float32Array) : forall i j v,
  i <> j -> load (store a i v) j = load a j.
Proof.
  unfold load. induction a as [| h rest IH]; intros [| i] [| j] v H;
    cbn [store nth_error]; try reflexivity; try congruence. apply IH. congruence.
Qed.

Module PoolFacts.
Import Foliage.

Lemma store3_length a i v : length (store3 a i v) = length a.
Proof. unfold store3. now rewrite !store_length. Qed.

Lemma load_store3_below a i v j :
  (j < i * 3)%nat -> load (store3 a i v) j = load a j.
Proof.
  intros H. unfold store3. rewrite !load_store_ne by lia. reflexivity.
Qed.

Lemma load_store3_x a i v :
  (i * 3 + 2 < length a)%nat ->
  load (store3 a i v) (i * 3) = Some (Math_fround (Vector3.x v)).
Proof.
  intros H. unfold store3. rewrite !load_store_ne by lia.
  apply load_store_eq. lia.
Qed.

(** The array of tree positions after one iteration. *)
Lemma fill_treePos cfg i a s :
  treePos (fst (fill cfg i a s))
  = store3 (treePos a) i
      (fst (randomOnTree_default (TREE_HEIGHT cfg) (TREE_RADIUS cfg) s)).
Proof.
  unfold fill, bind.
  destruct (randomOnTree_default (TREE_HEIGHT cfg) (TREE_RADIUS cfg) s) as [treeP s1].
  destruct (randomInSphere (Fin 15) s1) as [scatterP s2].
  reflexivity.
Qed.

Lemma fill_shape cfg n i a s : shape n a -> shape n (fst (fill cfg i a s)).
Proof.
  unfold shape, fill, bind.
  destruct (randomOnTree_default (TREE_HEIGHT cfg) (TREE_RADIUS cfg) s) as [treeP s1].
  destruct (randomInSphere (Fin 15) s1) as [scatterP s2].
  cbn [fst positions scatterPos treePos randoms sizes colorTypes Math_random ret].
  rewrite !store3_length, !store_length. trivial.
Qed.

Lemma loop_shape cfg n k : forall i a s,
  shape n a -> shape n (fst (loop cfg k i a s)).
Proof.
  induction k as [| k IH]; intros i a s H; cbn [loop]; [exact H |].
  unfold bind. pose proof (fill_shape cfg n i a s H) as H1.
  destruct (fill cfg i a s) as [a1 s1]. apply IH. exact H1.
Qed.

(** Later iterations leave the entries of earlier particles alone. *)
Lemma loop_treePos_below cfg k : forall i a s j,
  (j < i * 3)%nat ->
  load (treePos (fst (loop cfg k i a s))) j = load (treePos a) j.
Proof.
  induction k as [| k IH]; intros i a s j H; cbn [loop]; [reflexivity |].
  unfold bind. pose proof (fill_treePos cfg i a s) as E.
  destruct (fill cfg i a s) as [a1 s1]. cbn [fst] in E.
  rewrite IH by lia. rewrite E. now apply load_store3_below.
Qed.

Lemma can_construct_spec room n :
  can_construct room n = true
  <-> (0 <= n /\ n <= Z.max 0 room /\ n <= MAX_LENGTH)%Z.
Proof.
  unfold can_construct. generalize MAX_LENGTH. intros M.
  destruct (Z.ltb_spec n 0); destruct (Z.ltb_spec (Z.min (Z.max 0 room) M) n);
    cbn [negb orb]; split; intros H'; try discriminate; try reflexivity; lia.
Qed.

Lemma generate_ok room cfg s :
  fits room (PARTICLE_COUNT cfg) ->
  generate room cfg s =
  Ok (let n := Z.to_nat (PARTICLE_COUNT cfg) in
      loop cfg n 0
        (mkPool (repeat (Fin 0) (n * 3)) (repeat (Fin 0) (n * 3))
                (repeat (Fin 0) (n * 3)) (repeat (Fin 0) n)
                (repeat (Fin 0) n) (repeat (Fin 0) n)) s).
Proof.
  intros (H0 & H1 & H2 & H3 & H4 & H5). unfold generate, Float32Array_new.
  cbv zeta. rewrite H0, H1, H2, H3, H4, H5. cbn [result_bind].
  apply can_construct_spec in H3.
  replace (Z.to_nat (PARTICLE_COUNT cfg * 3))
    with (Z.to_nat (PARTICLE_COUNT cfg) * 3)%nat by lia.
  reflexivity.
Qed.

Lemma generate_throw room cfg s :
  ~ fits room (PARTICLE_COUNT cfg) -> generate room cfg s = Throw RangeError.
Proof.
  intros H. unfold generate, Float32Array_new. cbv zeta.
  destruct (can_construct (room 0%nat) (PARTICLE_COUNT cfg * 3)) eqn:E0;
    [| reflexivity].
  destruct (can_construct (room 1%nat) (PARTICLE_COUNT cfg * 3)) eqn:E1;
    [| reflexivity].
  destruct (can_construct (room 2%nat) (PARTICLE_COUNT cfg * 3)) eqn:E2;
    [| reflexivity].
  destruct (can_construct (room 3%nat) (PARTICLE_COUNT cfg)) eqn:E3;
    [| reflexivity].
  destruct (can_construct (room 4%nat) (PARTICLE_COUNT cfg)) eqn:E4;
    [| reflexivity].
  destruct (can_construct (room 5%nat) (PARTICLE_COUNT cfg)) eqn:E5;
    [| reflexivity].
  exfalso. apply H. unfold fits. tauto.
Qed.

(** C6, as amended: the generation validates nothing and raises no
    configuration error.  Whatever the tree height and radius, it returns
    normally when its six typed-array constructions succeed, with arrays
    of [3 * count] and [count] entries, and otherwise fails with the
    [RangeError] of the constructor that failed; that happens for every
    negative count and every count above a third of the maximum length,
    and else only when the engine lacks the room for one of the arrays.  With a tree height of
    [0] and at least one particle the first tree coordinate is NaN. *)
Theorem generate_no_validation (room : nat -> Z) (cfg : Config) (s : rng) :
  (fits room (PARTICLE_COUNT cfg) ->
   exists pool s',
     generate room cfg s = Ok (pool, s')
     /\ shape (Z.to_nat (PARTICLE_COUNT cfg)) pool
     /\ (TREE_HEIGHT cfg = Fin 0 -> (0 < PARTICLE_COUNT cfg)%Z ->
         load (treePos pool) 0 = Some NaN))
  /\ (~ fits room (PARTICLE_COUNT cfg) ->
      generate room cfg s = Throw RangeError)
  /\ (fits room (PARTICLE_COUNT cfg) <->
      (0 <= PARTICLE_COUNT cfg
       /\ PARTICLE_COUNT cfg * 3 <= MAX_LENGTH
       /\ PARTICLE_COUNT cfg * 3 <= Z.max 0 (room 0%nat)
       /\ PARTICLE_COUNT cfg * 3 <= Z.max 0 (room 1%nat)
       /\ PARTICLE_COUNT cfg * 3 <= Z.max 0 (room 2%nat)
       /\ PARTICLE_COUNT cfg <= Z.max 0 (room 3%nat)
       /\ PARTICLE_COUNT cfg <= Z.max 0 (room 4%nat)
       /\ PARTICLE_COUNT cfg <= Z.max 0 (room 5%nat))%Z).
Proof.
  split; [| split].
  - intros H. rewrite generate_ok by exact H. cbv zeta.
    destruct H as (_ & _ & _ & H3 & _). apply can_construct_spec in H3.
    set (n := Z.to_nat (PARTICLE_COUNT cfg)).
    set (a0 := mkPool _ _ _ _ _ _).
    assert (H0 : shape n a0)
      by (unfold shape, a0; cbn; rewrite !repeat_length; tauto).
    pose proof (loop_shape cfg n n 0 a0 s H0) as Hs.
    destruct (loop cfg n 0 a0 s) as [pool s'] eqn:E. cbn [fst] in Hs.
    exists pool, s'. split; [reflexivity |]. split; [exact Hs |].
    intros Hh Hn.
    assert (En : exists k, n = S k) by (exists (Nat.pred n); lia).
    destruct En as [k En].
    assert (Ep : pool = fst (loop cfg n 0 a0 s)) by now rewrite E.
    rewrite Ep, En. cbn [loop]. unfold bind.
    pose proof (fill_treePos cfg 0 a0 s) as Ef.
    destruct (fill cfg 0 a0 s) as [a1 s1]. cbn [fst] in Ef.
    rewrite loop_treePos_below by lia. rewrite Ef, Hh.
    unfold randomOnTree_default. rewrite randomOnTree_height_zero.
    rewrite load_store3_x; [reflexivity |].
    unfold a0; cbn [treePos]; rewrite repeat_length; lia.
  - apply generate_throw.
  - unfold fits. rewrite !can_construct_spec. lia.
Qed.

Lemma roomy_fits_one : fits roomy 1.
Proof.
  unfold fits. rewrite !can_construct_spec. unfold roomy.
  change MAX_LENGTH with 2251799813685247%Z. lia.
Qed.

Lemma generate_no_validation_witness :
  fits roomy (PARTICLE_COUNT flat_config)
  /\ TREE_HEIGHT flat_config = Fin 0
  /\ (0 < PARTICLE_COUNT flat_config)%Z
  /\ (exists pool s',
        generate roomy flat_config halves = Ok (pool, s')
        /\ shape 1 pool
        /\ load (treePos pool) 0 = Some NaN)
  /\ ~ fits (fun _ => 2%Z) (PARTICLE_COUNT flat_config)
  /\ generate (fun _ => 2%Z) flat_config halves = Throw RangeError.
Proof.
  assert (H : fits roomy (PARTICLE_COUNT flat_config)) by exact roomy_fits_one.
  assert (Hh : TREE_HEIGHT flat_config = Fin 0) by reflexivity.
  assert (Hn : (0 < PARTICLE_COUNT flat_config)%Z) by (cbn; lia).
  assert (Hs2 : ~ fits (fun _ => 2%Z) (PARTICLE_COUNT flat_config)).
  { intros (F & _). apply can_construct_spec in F. cbn in F. lia. }
  split; [exact H |]. split; [exact Hh |]. split; [exact Hn |].
  split.
  - destruct (proj1 (generate_no_validation roomy flat_config halves) H)
      as [pool [s' [E [Hs HN]]]].
    exists pool, s'. split; [exact E |]. split; [exact Hs | exact (HN Hh Hn)].
  - split; [exact Hs2 |].
    exact (proj1 (proj2 (generate_no_validation (fun _ => 2%Z) flat_config halves))
             Hs2).
Defined.

(** C6 fails as stated: with a tree height of zero the generation raises
    nothing; it returns a pool whose first tree coordinate is NaN. *)
Lemma generate_height_zero_returns_nan :
  exists pool s',
    generate roomy flat_config halves = Ok (pool, s')
    /\ load (treePos pool) 0 = Some NaN.
Proof.
  rewrite generate_ok by exact roomy_fits_one. cbv zeta.
  change (Z.to_nat (PARTICLE_COUNT flat_config)) with 1%nat.
  cbn [loop Nat.mul Nat.add repeat]. unfold bind.
  set (a0 := mkPool _ _ _ _ _ _).
  pose proof (fill_treePos flat_config 0 a0 halves) as Ef.
  destruct (fill flat_config 0 a0 halves) as [a1 s1]. cbn [fst] in Ef.
  exists a1, s1. split; [reflexivity |].
  rewrite Ef. cbn [TREE_HEIGHT TREE_RADIUS flat_config].
  unfold randomOnTree_default. rewrite randomOnTree_height_zero.
  reflexivity.
Qed.

End PoolFacts.

(* ================================================================= *)
(** ** The ornaments *)

Lemma drop_in_unit k s : in_unit s -> in_unit (drop k s).
Proof. intros H n. apply H. Qed.

Module OrnamentFacts.
Import Ornament.

Lemma fin_finite a b c : Vector3.finite (Vector3.fin a b c).
Proof. unfold Vector3.finite, Vector3.fin, is_finite; cbn. repeat split; now eexists. Qed.

Lemma finite_fin v : Vector3.finite v -> exists a b c, v = Vector3.fin a b c.
Proof.
  destruct v as [vx vy vz]. intros [[a Ha] [[b Hb] [c Hc]]]. cbn in *. subst.
  now exists a, b, c.
Qed.

Lemma box_wf cfg h r s :
  TREE_HEIGHT cfg = Fin h -> TREE_RADIUS cfg = Fin r -> h <> 0.5 ->
  in_unit s ->
  exists o, box cfg s = (o, drop 12 s) /\ wf o.
Proof.
  intros Hh Hr Hne Hs.
  unfold box, randomOnTree_default. rewrite Hh, Hr. cbn [sub add neg].
  assert (H0 : 0 <= 0 <= 1) by lra. assert (H1 : 0 <= 1 <= 1) by lra.
  assert (Hn : h + - (0.5) <> 0) by lra.
  destruct (randomOnTree_fin s Hs (h + - (0.5)) (r + - (0.8)) 0 1 Hn H0 H1) as [q E].
  unfold bind at 1. rewrite E. cbv zeta.
  unfold bind at 1.
  rewrite (randomInSphere_fin (drop 2 s) (drop_in_unit 2 s Hs)). cbv zeta.
  unfold bind, Math_random, ret, Vector3.clone.
  eexists. split; [reflexivity |].
  unfold wf. cbn [treePos scatterPos currentPos speed].
  repeat split; try apply fin_finite.
  eexists. split; [cbn; reflexivity |].
  pose proof (Hs 7%nat) as H7. unfold drop. cbn [Nat.add]. lra.
Qed.

Lemma blueSphere_wf cfg h r s :
  TREE_HEIGHT cfg = Fin h -> TREE_RADIUS cfg = Fin r -> h <> 0 ->
  in_unit s ->
  exists o, blueSphere cfg s = (o, drop 12 s) /\ wf o.
Proof.
  intros Hh Hr Hne Hs.
  unfold blueSphere. rewrite Hh, Hr. cbn [sub add neg].
  assert (H0 : 0 <= 0.0 <= 1) by lra. assert (H1 : 0 <= 0.4 <= 1) by lra.
  destruct (randomOnTree_fin s Hs h (r + - (0.5)) 0.0 0.4 Hne H0 H1) as [q E].
  unfold bind at 1. rewrite E. cbv zeta.
  unfold bind at 1.
  rewrite (randomInSphere_fin (drop 2 s) (drop_in_unit 2 s Hs)). cbv zeta.
  unfold bind, Math_random, ret, Vector3.clone.
  eexists. split; [reflexivity |].
  unfold wf. cbn [treePos scatterPos currentPos speed].
  repeat split; try apply fin_finite.
  eexists. split; [cbn; reflexivity |].
  pose proof (Hs 6%nat) as H6. unfold drop. cbn [Nat.add]. lra.
Qed.

Lemma items_wf (one : Rand t) (k : nat) :
  (forall s, in_unit s -> exists o, one s = (o, drop k s) /\ wf o) ->
  forall n s, in_unit s -> Forall wf (fst (items n one s)).
Proof.
  intros Hone. induction n as [| n IH]; intros s Hs; cbn [items].
  - constructor.
  - unfold bind. destruct (Hone s Hs) as [o [E W]]. rewrite E.
    specialize (IH (drop k s) (drop_in_unit k s Hs)).
    destruct (items n one (drop k s)) as [rest s2]. cbn [fst] in *.
    unfold ret. cbn [fst]. now constructor.
Qed.

(** The update of a well-formed ornament, coordinate by coordinate. *)
Lemma update_fin b o a cx cy cz tx ty tz :
  speed o = Fin a ->
  currentPos o = Vector3.fin cx cy cz ->
  target b o = Vector3.fin tx ty tz ->
  currentPos (update b o)
  = Vector3.fin ((1 - a) * cx + a * tx) ((1 - a) * cy + a * ty)
                ((1 - a) * cz + a * tz).
Proof.
  intros Ha Hc Ht. unfold update. cbn [currentPos]. rewrite Ha, Hc, Ht.
  unfold Vector3.lerp, Vector3.fin. cbn. f_equal; f_equal; ring.
Qed.

Lemma distanceTo_fin ax ay az bx by_ bz :
  Vector3.distanceTo (Vector3.fin ax ay az) (Vector3.fin bx by_ bz)
  = Fin (sqrt ((ax - bx) * (ax - bx) + (ay - by_) * (ay - by_)
               + (az - bz) * (az - bz))).
Proof.
  unfold Vector3.distanceTo, Vector3.distanceToSquared, Vector3.fin. cbn.
  match goal with |- context [Rlt_dec ?e 0] => destruct (Rlt_dec e 0) as [N | _] end.
  - exfalso.
    pose proof (Rle_0_sqr (ax + - bx)) as Hx.
    pose proof (Rle_0_sqr (ay + - by_)) as Hy.
    pose proof (Rle_0_sqr (az + - bz)) as Hz.
    unfold Rsqr in Hx, Hy, Hz. lra.
  - reflexivity.
Qed.

Lemma update_wf b o : wf o -> wf (update b o).
Proof.
  intros (Ht & Hs & Hc & a & Ha & Hr).
  destruct (finite_fin _ Hc) as (cx & cy & cz & Ec).
  assert (Hg : Vector3.finite (target b o)) by (destruct b; assumption).
  destruct (finite_fin _ Hg) as (tx & ty & tz & Et).
  unfold wf. rewrite (update_fin b o a _ _ _ _ _ _ Ha Ec Et).
  cbn [update treePos scatterPos speed].
  split; [exact Ht |]. split; [exact Hs |]. split; [apply fin_finite |].
  now exists a.
Qed.

(** The distance to the target shrinks by the factor [1 - a]. *)
Lemma lerp_distance a cx cy cz tx ty tz :
  0 <= 1 - a ->
  sqrt (((1 - a) * cx + a * tx - tx) * ((1 - a) * cx + a * tx - tx)
        + ((1 - a) * cy + a * ty - ty) * ((1 - a) * cy + a * ty - ty)
        + ((1 - a) * cz + a * tz - tz) * ((1 - a) * cz + a * tz - tz))
  = (1 - a) * sqrt ((cx - tx) * (cx - tx) + (cy - ty) * (cy - ty)
                    + (cz - tz) * (cz - tz)).
Proof.
  intros Ha.
  set (S := (cx - tx) * (cx - tx) + (cy - ty) * (cy - ty) + (cz - tz) * (cz - tz)).
  assert (HS : 0 <= S).
  { pose proof (Rle_0_sqr (cx - tx)) as Hx. pose proof (Rle_0_sqr (cy - ty)) as Hy.
    pose proof (Rle_0_sqr (cz - tz)) as Hz. unfold Rsqr in Hx, Hy, Hz.
    unfold S. lra. }
  match goal with |- sqrt ?e = _ =>
    replace e with ((1 - a) * (1 - a) * S) by (unfold S; ring) end.
  rewrite sqrt_mult; [| nra | exact HS].
  rewrite sqrt_square by exact Ha. reflexivity.
Qed.

Lemma between a c t :
  0 <= a <= 1 -> Rmin c t <= (1 - a) * c + a * t <= Rmax c t.
Proof.
  intros Ha. unfold Rmin, Rmax. destruct (Rle_dec c t); nra.
Qed.

Lemma sample_wf : wf sample.
Proof.
  unfold wf, sample; cbn. repeat split; try (now eexists).
  exists 0.05. split; [reflexivity | lra].
Qed.

(** What one frame does to an ornament with finite positions: [o'] is
    [o] moved toward its target. *)
Lemma update_approaches b o : wf o -> approaches b o (update b o).
Proof.
  intros Hwf. unfold approaches.
  split; [reflexivity |]. split; [reflexivity |]. split; [reflexivity |].
  split; [reflexivity |].
  destruct Hwf as (Ht & Hs & Hc & a & Ha & Hr).
  destruct (finite_fin _ Hc) as (cx & cy & cz & Ec).
  assert (Hg : Vector3.finite (target b o)) by (destruct b; assumption).
  destruct (finite_fin _ Hg) as (tx & ty & tz & Et).
  exists a, cx, cy, cz, tx, ty, tz.
  exists (sqrt ((cx - tx) * (cx - tx) + (cy - ty) * (cy - ty)
                + (cz - tz) * (cz - tz))).
  rewrite (update_fin b o a _ _ _ _ _ _ Ha Ec Et), Ec, Et.
  rewrite !distanceTo_fin, lerp_distance by lra.
  repeat split; try assumption; try apply between; try lra.
Qed.

(** C10: every ornament of the two families is created with finite
    positions and a speed in [[0.02, 0.07]], and the frame callback keeps
    that so and keeps both lists at their length; and for every ornament
    [o] of either list with finite positions, the callback leaves at the
    same place of the same list an ornament [o'] with the speed and the
    two targets of [o], whose current position is
    [lerp(currentPos, target, speed)] for the target of the form in
    force: the convex combination [(1 - speed) * old + speed * target],
    each coordinate between the old one and the target's, at a distance
    to the target of [1 - speed] times the old one. *)
Theorem ornaments_approach_target :
  (forall s, in_unit s ->
     Forall wf (fst (boxes source_config s))
     /\ Forall wf (fst (blueSpheres source_config s)))
  /\ (forall b st, Forall wf (fst st) -> Forall wf (snd st) ->
        Forall wf (fst (useFrame b st)) /\ Forall wf (snd (useFrame b st)))
  /\ (forall b st,
        length (fst (useFrame b st)) = length (fst st)
        /\ length (snd (useFrame b st)) = length (snd st))
  /\ (forall b st i o, wf o ->
        (nth_error (fst st) i = Some o ->
         exists o', nth_error (fst (useFrame b st)) i = Some o'
                    /\ approaches b o o')
        /\ (nth_error (snd st) i = Some o ->
            exists o', nth_error (snd (useFrame b st)) i = Some o'
                       /\ approaches b o o')).
Proof.
  split; [| split; [| split]].
  - intros s Hs. unfold boxes, blueSpheres. split.
    + apply items_wf with (k := 12%nat); [| exact Hs].
      intros s0 Hs0. apply (box_wf source_config 12 4.5); trivial; lra.
    + apply items_wf with (k := 12%nat); [| exact Hs].
      intros s0 Hs0. apply (blueSphere_wf source_config 12 4.5); trivial; lra.
  - intros b [bs ss] Hb Hss. unfold useFrame. cbn [fst snd] in *.
    split; apply Forall_map; (eapply Forall_impl; [| eassumption]);
      intros o; apply update_wf.
  - intros b [bs ss]. unfold useFrame. cbn [fst snd].
    now rewrite !length_map.
  - intros b [bs ss] i o Hwf. unfold useFrame. cbn [fst snd].
    split; intros E; rewrite nth_error_map, E; cbn [option_map];
      exists (update b o); (split; [reflexivity | now apply update_approaches]).
Qed.

Lemma ornaments_approach_target_witness :
  in_unit halves /\ wf sample
  /\ nth_error (snd ([sample], [sample])) 0 = Some sample
  /\ Forall wf (fst (boxes source_config halves))
  /\ exists o',
       nth_error (snd (useFrame true ([sample], [sample]))) 0 = Some o'
       /\ approaches true sample o'.
Proof.
  destruct ornaments_approach_target as [A [_ [_ C]]].
  destruct (A halves halves_in_unit) as [A1 _].
  split; [apply halves_in_unit |]. split; [apply sample_wf |].
  split; [reflexivity |]. split; [exact A1 |].
  exact (proj2 (C true ([sample], [sample]) 0%nat sample sample_wf) eq_refl).
Defined.

End OrnamentFacts.

(* ================================================================= *)
(** ** The vertex shader *)

Module ShaderFacts.
Import Shader.

Lemma clamp_unit v : 0 <= clamp v 0 1 <= 1.
Proof.
  unfold clamp, Rmin, Rmax.
  destruct (Rle_dec v 0); destruct (Rle_dec _ 1); lra.
Qed.

Lemma clamp_low v : v <= 0 -> clamp v 0 1 = 0.
Proof.
  intros H. unfold clamp, Rmin, Rmax.
  destruct (Rle_dec v 0); destruct (Rle_dec _ 1); lra.
Qed.

Lemma clamp_high v : 1 <= v -> clamp v 0 1 = 1.
Proof.
  intros H. unfold clamp, Rmin, Rmax.
  destruct (Rle_dec v 0); destruct (Rle_dec _ 1); lra.
Qed.

Lemma clamp_mid v : 0 <= v <= 1 -> clamp v 0 1 = v.
Proof.
  intros H. unfold clamp, Rmin, Rmax.
  destruct (Rle_dec v 0); destruct (Rle_dec _ 1); lra.
Qed.

Lemma clamp_mono v w : v <= w -> clamp v 0 1 <= clamp w 0 1.
Proof.
  intros H. unfold clamp, Rmin, Rmax.
  destruct (Rle_dec v 0); destruct (Rle_dec w 0);
    repeat match goal with |- context [Rle_dec ?a 1] => destruct (Rle_dec a 1) end;
    lra.
Qed.

(** [smoothstep] between the edges [0] and [1]. *)
Lemma smoothstep_unit v :
  smoothstep 0 1 v = clamp v 0 1 * clamp v 0 1 * (3 - 2 * clamp v 0 1).
Proof.
  unfold smoothstep. cbv zeta.
  replace ((v - 0) / (1 - 0)) with v by field. reflexivity.
Qed.

Lemma smoothstep_range v : 0 <= smoothstep 0 1 v <= 1.
Proof.
  rewrite smoothstep_unit. pose proof (clamp_unit v) as H.
  set (c := clamp v 0 1) in *. split; [nra |].
  assert (E : 1 - c * c * (3 - 2 * c) = (1 - c) * (1 - c) * (1 + 2 * c)) by ring.
  assert (0 <= (1 - c) * (1 - c) * (1 + 2 * c)) by (apply Rmult_le_pos; nra).
  lra.
Qed.

Lemma smoothstep_low v : v <= 0 -> smoothstep 0 1 v = 0.
Proof. intros H. rewrite smoothstep_unit, clamp_low by exact H. ring. Qed.

Lemma smoothstep_high v : 1 <= v -> smoothstep 0 1 v = 1.
Proof. intros H. rewrite smoothstep_unit, clamp_high by exact H. ring. Qed.

Lemma smoothstep_mid v : 0 <= v <= 1 -> smoothstep 0 1 v = v * v * (3 - 2 * v).
Proof. intros H. rewrite smoothstep_unit, clamp_mid by exact H. ring. Qed.

Lemma smoothstep_pos v : 0 < smoothstep 0 1 v <-> 0 < v.
Proof.
  split; intros H.
  - destruct (Rle_dec v 0) as [L | L]; [| lra].
    rewrite smoothstep_low in H by exact L. lra.
  - destruct (Rle_dec 1 v) as [L | L].
    + rewrite smoothstep_high by exact L. lra.
    + rewrite smoothstep_mid by lra.
      apply Rmult_lt_0_compat; [apply Rmult_lt_0_compat |]; lra.
Qed.

Lemma smoothstep_one v : smoothstep 0 1 v = 1 <-> 1 <= v.
Proof.
  split; intros H.
  - destruct (Rle_dec 1 v) as [L | L]; [exact L | exfalso].
    destruct (Rle_dec v 0) as [Z | Z].
    + rewrite smoothstep_low in H by exact Z. lra.
    + rewrite smoothstep_mid in H by lra.
      assert (E : 1 - v * v * (3 - 2 * v) = (1 - v) * (1 - v) * (1 + 2 * v)) by ring.
      assert (0 < (1 - v) * (1 - v) * (1 + 2 * v))
        by (apply Rmult_lt_0_compat; [apply Rmult_lt_0_compat |]; lra).
      lra.
  - now apply smoothstep_high.
Qed.

Lemma smoothstep_mono v w : v <= w -> smoothstep 0 1 v <= smoothstep 0 1 w.
Proof.
  intros H. rewrite !smoothstep_unit.
  pose proof (clamp_unit v) as Hv. pose proof (clamp_unit w) as Hw.
  pose proof (clamp_mono v w H) as Hm.
  set (a := clamp v 0 1) in *. set (b := clamp w 0 1) in *.
  assert (E : b * b * (3 - 2 * b) - a * a * (3 - 2 * a)
              = (b - a) * (3 * (a + b) - 2 * (a * a + a * b + b * b))) by ring.
  assert (0 <= 3 * (a + b) - 2 * (a * a + a * b + b * b)) by nra.
  assert (0 <= (b - a) * (3 * (a + b) - 2 * (a * a + a * b + b * b)))
    by (apply Rmult_le_pos; lra).
  lra.
Qed.

(** The argument of [smoothstep] in [localProgress]. *)
Lemma localProgress_arg treeY t :
  localProgress treeY t
  = smoothstep 0 1 (t + delay treeY * (2 * t - 1)).
Proof. unfold localProgress. cbv zeta. f_equal. ring. Qed.

Lemma localProgress_range treeY t : 0 <= localProgress treeY t <= 1.
Proof. unfold localProgress. apply smoothstep_range. Qed.

Lemma mix_zero a b : mix a b 0 = a.
Proof. destruct a, b. unfold mix; cbn. f_equal; ring. Qed.

Lemma mix_one a b : mix a b 1 = b.
Proof. destruct a, b. unfold mix; cbn. f_equal; ring. Qed.

(** C3, as amended: of two particles the one destined lower is at least as
    far along while the global progress is at most one half, and the one
    destined higher is at least as far along from one half on; so, for tree
    heights above [-20], whenever the higher particle has started the lower
    one has started too, and whenever the lower particle has settled the
    higher one has settled too. *)
Theorem localProgress_height_order (y1 y2 t : R) (Hy : y1 <= y2) :
  (t <= 1 / 2 -> localProgress y2 t <= localProgress y1 t)
  /\ (1 / 2 <= t -> localProgress y1 t <= localProgress y2 t)
  /\ (-20 < y1 -> 0 < localProgress y2 t -> 0 < localProgress y1 t)
  /\ (-20 < y1 -> localProgress y1 t = 1 -> localProgress y2 t = 1).
Proof.
  rewrite !localProgress_arg.
  assert (Hd : delay y1 <= delay y2) by (unfold delay; lra).
  repeat split.
  - intros Ht. apply smoothstep_mono.
    assert (0 <= (delay y2 - delay y1) * (1 - 2 * t))
      by (apply Rmult_le_pos; lra).
    lra.
  - intros Ht. apply smoothstep_mono.
    assert (0 <= (delay y2 - delay y1) * (2 * t - 1))
      by (apply Rmult_le_pos; lra).
    lra.
  - intros H1 H. apply (proj1 (smoothstep_pos _)) in H. apply smoothstep_pos.
    assert (Hd1 : 0 < delay y1 + 1 / 2) by (unfold delay; lra).
    destruct (Rle_dec t (1 / 2)) as [L | L].
    + assert (0 <= (delay y2 - delay y1) * (1 - 2 * t))
        by (apply Rmult_le_pos; lra).
      lra.
    + assert (0 < (delay y1 + 1 / 2) * (2 * t - 1))
        by (apply Rmult_lt_0_compat; lra).
      lra.
  - intros H1 H. apply (proj1 (smoothstep_one _)) in H. apply smoothstep_one.
    assert (Hd1 : 0 < delay y1 + 1 / 2) by (unfold delay; lra).
    destruct (Rle_dec t (1 / 2)) as [L | L].
    + exfalso.
      assert (0 <= (delay y1 + 1 / 2) * (1 - 2 * t))
        by (apply Rmult_le_pos; lra).
      lra.
    + assert (0 <= (delay y2 - delay y1) * (2 * t - 1))
        by (apply Rmult_le_pos; lra).
      lra.
Qed.

Lemma localProgress_height_order_witness :
  -6 <= 6 /\ 1 / 2 <= 0.7 /\ localProgress (-6) 0.7 <= localProgress 6 0.7.
Proof.
  assert (Hy : -6 <= 6) by lra.
  assert (Ht : 1 / 2 <= 0.7) by lra.
  split; [exact Hy |]. split; [exact Ht |].
  exact (proj1 (proj2 (localProgress_height_order (-6) 6 0.7 Hy)) Ht).
Defined.

(** C3 fails as stated: at global progress [0.7] the particle destined for
    the top of the tree ([y = 6]) has settled, the one destined for the
    bottom ([y = -6]) has not. *)
Lemma higher_particle_settles_first :
  localProgress 6 0.7 = 1 /\ localProgress (-6) 0.7 < 1.
Proof.
  rewrite !localProgress_arg. unfold delay. split.
  - apply smoothstep_high. lra.
  - pose proof (smoothstep_range (0.7 + (-6 * 0.05 + 0.5) * (2 * 0.7 - 1))) as [_ H].
    destruct H as [H | H]; [exact H | exfalso].
    apply (proj1 (smoothstep_one _)) in H. lra.
Qed.

(** C4, as amended: for every scatter position and every tree position of
    height at least [-10], where the delay is not negative, the blend at
    progress [0] is the scatter position and the blend at progress [1] is
    the tree position. *)
Theorem blend_endpoints (scatter tree : vec3) (Hy : -10 <= y tree) :
  blend scatter tree 0 = scatter /\ blend scatter tree 1 = tree.
Proof.
  assert (Hd : 0 <= delay (y tree)) by (unfold delay; lra).
  unfold blend. rewrite !localProgress_arg. split.
  - rewrite smoothstep_low by nra. unfold easeOutCubic.
    replace (1 - (1 - 0) ^ 3) with 0 by ring. apply mix_zero.
  - rewrite smoothstep_high by nra. unfold easeOutCubic.
    replace (1 - (1 - 1) ^ 3) with 1 by ring. apply mix_one.
Qed.

Lemma blend_endpoints_witness :
  -10 <= y (mkvec3 1 6 2)
  /\ blend (mkvec3 3 4 5) (mkvec3 1 6 2) 0 = mkvec3 3 4 5
  /\ blend (mkvec3 3 4 5) (mkvec3 1 6 2) 1 = mkvec3 1 6 2.
Proof.
  assert (Hy : -10 <= y (mkvec3 1 6 2)) by (cbn; lra).
  split; [exact Hy |].
  exact (blend_endpoints (mkvec3 3 4 5) (mkvec3 1 6 2) Hy).
Defined.

(** C4 fails as stated: for a tree position of height [-20] the delay is
    [-0.5], and the blend at progress [0] is already [0.875] of the way
    from the scatter position to the tree position. *)
Lemma blend_start_off_scatter :
  blend (mkvec3 0 0 0) (mkvec3 0 (-20) 0) 0 = mkvec3 0 (-17.5) 0
  /\ blend (mkvec3 0 0 0) (mkvec3 0 (-20) 0) 0 <> mkvec3 0 0 0.
Proof.
  assert (E : blend (mkvec3 0 0 0) (mkvec3 0 (-20) 0) 0 = mkvec3 0 (-17.5) 0).
  { unfold blend. rewrite localProgress_arg. cbn [y]. unfold delay.
    rewrite smoothstep_mid by lra. unfold easeOutCubic, mix. cbn [x y z].
    f_equal; lra. }
  split; [exact E |]. rewrite E. intros H. injection H. lra.
Qed.

(** C9: while the progress uniform is at most [0.8] the final position is
    the blend of the scatter and tree positions at that progress; it is
    the same for any two particles and frames that agree on [aScatterPos],
    [aTreePos] and [uProgress]. *)
Theorem finalPos_below_threshold (a1 a2 : Attributes) (u1 u2 : Uniforms) :
  aScatterPos a1 = aScatterPos a2 ->
  aTreePos a1 = aTreePos a2 ->
  uProgress u1 = uProgress u2 ->
  uProgress u1 <= 0.8 ->
  finalPos a1 u1 = finalPos a2 u2
  /\ finalPos a1 u1 = Some (blend (aScatterPos a1) (aTreePos a1) (uProgress u1)).
Proof.
  intros Hs Ht Hp Hle. unfold finalPos. cbv zeta.
  rewrite <- Hs, <- Ht, <- Hp.
  destruct (Rlt_dec 0.8 (uProgress u1)) as [N | _]; [exfalso; lra |].
  split; reflexivity.
Qed.

Lemma finalPos_below_threshold_witness :
  uProgress (mkUniforms 0 0.5 1) <= 0.8
  /\ finalPos (mkAttributes (mkvec3 3 4 5) (mkvec3 1 6 2) 0.1 1 0)
              (mkUniforms 0 0.5 1)
     = finalPos (mkAttributes (mkvec3 3 4 5) (mkvec3 1 6 2) 0.9 0.5 3)
                (mkUniforms 7 0.5 2).
Proof.
  assert (H : uProgress (mkUniforms 0 0.5 1) <= 0.8) by (cbn; lra).
  split; [exact H |].
  exact (proj1 (finalPos_below_threshold
                  (mkAttributes (mkvec3 3 4 5) (mkvec3 1 6 2) 0.1 1 0)
                  (mkAttributes (mkvec3 3 4 5) (mkvec3 1 6 2) 0.9 0.5 3)
                  (mkUniforms 0 0.5 1) (mkUniforms 7 0.5 2)
                  eq_refl eq_refl eq_refl H)).
Defined.

End ShaderFacts.

(* ================================================================= *)
(** * Further properties of the code *)

(** ** The render loop of [FoliageSystem] *)

Module FoliageLoopFacts.
Import Foliage FoliageLoop.

Lemma mounted_in_sync : in_sync mounted.
Proof. exists 0, (mkMesh (Fin 0) (Fin 0) (Fin 0)). repeat split; lra. Qed.

Lemma useFrame_in_sync f st :
  short f -> in_sync st ->
  in_sync (useFrame (isTreeForm f) (Fin (elapsedTime f)) (Fin (delta f)) st).
Proof.
  intros [H0 H1] (p & m & -> & Hp & _).
  rewrite FoliageFacts.useFrame_mounted. cbv zeta.
  eexists _, _. split; [reflexivity |]. split; [| reflexivity].
  unfold targetOf. destruct (isTreeForm f); nra.
Qed.

(** X1: through any sequence of frames of at most two thirds of a second
    each, whatever the form asked for in each of them, the progress of the
    mounted component stays a number in [[0,1]] and the [uProgress] uniform
    always equals it. *)
Theorem play_keeps_progress_in_unit (fs : list Frame) (st : State) :
  Forall short fs -> in_sync st -> in_sync (play fs st).
Proof.
  revert st. induction fs as [| f rest IH]; intros st Hfs Hst; cbn [play].
  - exact Hst.
  - inversion Hfs as [| f' rest' Hf Hrest]; subst.
    apply IH; [exact Hrest |]. now apply useFrame_in_sync.
Qed.

Lemma play_keeps_progress_in_unit_witness :
  Forall short [mkFrame true 0.5 0.5; mkFrame false 1 0.5]
  /\ in_sync mounted
  /\ in_sync (play [mkFrame true 0.5 0.5; mkFrame false 1 0.5] mounted).
Proof.
  assert (H : Forall short [mkFrame true 0.5 0.5; mkFrame false 1 0.5])
    by (repeat constructor; cbn; lra).
  split; [exact H |]. split; [exact mounted_in_sync |].
  exact (play_keeps_progress_in_unit _ mounted H mounted_in_sync).
Defined.

(** X2: one frame of at most two thirds of a second moves the progress
    toward the target of the form in force without passing it: the new
    value lies between the old one and the target, the step is the
    fraction [1.5 * dt] of the gap and the gap left is the fraction
    [1 - 1.5 * dt] of it.  A change of form between two frames therefore
    reverses the motion without a jump. *)
Theorem useFrame_moves_toward_target b t dt p m :
  0 <= dt <= 2 / 3 ->
  exists q,
    progress (useFrame b t (Fin dt) (mkState (Fin p) (Some m))) = Fin q
    /\ Rmin p (targetOf b) <= q <= Rmax p (targetOf b)
    /\ q - p = 1.5 * dt * (targetOf b - p)
    /\ targetOf b - q = (1 - 1.5 * dt) * (targetOf b - p).
Proof.
  intros Hdt. rewrite FoliageFacts.useFrame_mounted. cbv zeta. cbn [progress].
  eexists. split; [reflexivity |].
  split; [| split; ring].
  unfold Rmin, Rmax. destruct (Rle_dec p (targetOf b)); nra.
Qed.

Lemma useFrame_moves_toward_target_witness :
  0 <= 1 / 2 <= 2 / 3
  /\ exists q,
       progress (useFrame false (Fin 3) (Fin (1 / 2))
                   (mkState (Fin 0.8) (Some (mkMesh (Fin 0) (Fin 0.8) (Fin 0)))))
       = Fin q
       /\ Rmin 0.8 (targetOf false) <= q <= Rmax 0.8 (targetOf false).
Proof.
  assert (H : 0 <= 1 / 2 <= 2 / 3) by lra.
  split; [exact H |].
  destruct (useFrame_moves_toward_target false (Fin 3) (1 / 2) 0.8
              (mkMesh (Fin 0) (Fin 0.8) (Fin 0)) H) as [q [E [B _]]].
  exists q. split; [exact E | exact B].
Defined.

(** X4: the bound of two thirds of a second is sharp: a frame toward the
    tree form from a progress below [1] leaves the progress at most [1]
    exactly when the frame lasts at most two thirds of a second. *)
Theorem useFrame_overshoots_iff (t : num) (dt p : R) (m : Mesh) :
  p < 1 ->
  (le (progress (useFrame true t (Fin dt) (mkState (Fin p) (Some m)))) (Fin 1)
   = true
   <-> dt <= 2 / 3).
Proof.
  intros Hp. rewrite FoliageFacts.useFrame_mounted. cbv zeta. cbn [progress].
  unfold le, targetOf.
  destruct (Rle_dec (p + (1 - p) * (1.5 * dt)) 1) as [L | L]; split; intros H.
  - nra.
  - reflexivity.
  - discriminate.
  - exfalso. apply L. nra.
Qed.

Lemma useFrame_overshoots_iff_witness :
  0 < 1
  /\ le (progress (useFrame true (Fin 1) (Fin 1) mounted)) (Fin 1) = false.
Proof.
  assert (Hp : 0 < 1) by lra.
  split; [exact Hp |].
  destruct (le (progress (useFrame true (Fin 1) (Fin 1) mounted)) (Fin 1)) eqn:E;
    [| reflexivity].
  exfalso.
  pose proof (proj1 (useFrame_overshoots_iff (Fin 1) 1 0
                       (mkMesh (Fin 0) (Fin 0) (Fin 0)) Hp) E) as H.
  lra.
Defined.

End FoliageLoopFacts.

(* ================================================================= *)
(** ** The generated pool, particle by particle *)

Lemma drop_drop (a b : nat) (s : rng) : drop a (drop b s) = drop (b + a) s.
Proof.
  apply functional_extensionality. intros n. unfold drop. f_equal. lia.
Qed.

Lemma load_out_of_range (a : Float32Array) (i : nat) :
  (length a <= i)%nat -> load a i = None.
Proof. intros H. unfold load. now apply nth_error_None. Qed.

Module ParticleFacts.
Import Foliage Attribute.

Lemma item3_store3_same a i v :
  (i * 3 + 2 < length a)%nat -> item3 (store3 a i v) i = Some (stored3 v).
Proof.
  intros H. unfold item3, store3.
  rewrite (load_store_ne _ (i * 3 + 2) (i * 3)) by lia.
  rewrite (load_store_ne _ (i * 3 + 1) (i * 3)) by lia.
  rewrite load_store_eq by lia.
  rewrite (load_store_ne _ (i * 3 + 2) (i * 3 + 1)) by lia.
  rewrite load_store_eq by (rewrite store_length; lia).
  rewrite load_store_eq by (rewrite !store_length; lia).
  reflexivity.
Qed.

Lemma item3_store3_other a i j v :
  i <> j -> item3 (store3 a i v) j = item3 a j.
Proof.
  intros H. unfold item3, store3. rewrite !load_store_ne by lia. reflexivity.
Qed.

(** One iteration of the loop, in closed form. *)
Lemma fill_eq cfg i a s :
  fill cfg i a s =
  (let d := drawn cfg s in
   mkPool (store3 (positions a) i (position d))
          (store3 (scatterPos a) i (aScatterPos d))
          (store3 (treePos a) i (aTreePos d))
          (store (randoms a) i (aRandom d))
          (store (sizes a) i (aSize d))
          (store (colorTypes a) i (aColorType d)),
   drop 8 s).
Proof. reflexivity. Qed.

Lemma fill_particle_same cfg n i a s :
  shape n a -> (i < n)%nat ->
  particle (fst (fill cfg i a s)) i = Some (stored (drawn cfg s)).
Proof.
  intros (Hp & Hs & Ht & Hr & Hz & Hc) Hi. rewrite fill_eq. cbv zeta.
  unfold particle. cbn [fst positions scatterPos treePos randoms sizes colorTypes].
  rewrite !item3_store3_same by lia.
  unfold item1. rewrite !load_store_eq by lia.
  reflexivity.
Qed.

Lemma fill_particle_other cfg i j a s :
  i <> j -> particle (fst (fill cfg i a s)) j = particle a j.
Proof.
  intros H. rewrite fill_eq. cbv zeta.
  unfold particle. cbn [fst positions scatterPos treePos randoms sizes colorTypes].
  rewrite !item3_store3_other by exact H.
  unfold item1. rewrite !load_store_ne by exact H. reflexivity.
Qed.

(** The loop from particle [i] on: what it draws, what it leaves alone and
    where it leaves the stream of draws. *)
Lemma loop_particles cfg n k : forall i a s,
  shape n a -> (i + k <= n)%nat ->
  snd (loop cfg k i a s) = drop (8 * k) s
  /\ (forall j, (j < i)%nat ->
        particle (fst (loop cfg k i a s)) j = particle a j)
  /\ (forall j, (j < k)%nat ->
        particle (fst (loop cfg k i a s)) (i + j)
        = Some (stored (drawn cfg (drop (8 * j) s)))).
Proof.
  induction k as [| k IH]; intros i a s Ha Hik.
  - cbn [loop]. unfold ret. cbn [fst snd]. split; [| split].
    + apply functional_extensionality. intros m. unfold drop. f_equal.
    + reflexivity.
    + intros j Hj. lia.
  - cbn [loop]. unfold bind.
    pose proof (PoolFacts.fill_shape cfg n i a s Ha) as Ha1.
    pose proof (fill_particle_same cfg n i a s Ha ltac:(lia)) as Hsame.
    pose proof (fun j => fill_particle_other cfg i j a s) as Hother.
    assert (Es : snd (fill cfg i a s) = drop 8 s) by reflexivity.
    destruct (fill cfg i a s) as [a1 s1]. cbn [fst snd] in Ha1, Hsame, Hother, Es.
    subst s1.
    destruct (IH (S i) a1 (drop 8 s) Ha1 ltac:(lia)) as (E & Hlow & Hnew).
    split; [| split].
    + rewrite E, drop_drop. f_equal. lia.
    + intros j Hj. rewrite Hlow by lia. apply Hother. lia.
    + intros [| j] Hj.
      * rewrite Nat.add_0_r. rewrite Hlow by lia. rewrite Hsame.
        reflexivity.
      * replace (i + S j)%nat with (S i + j)%nat by lia.
        rewrite Hnew by lia. rewrite drop_drop. do 4 f_equal. lia.
Qed.

Lemma particle_out_of_range n a i :
  shape n a -> (n <= i)%nat -> particle a i = None.
Proof.
  intros (Hp & Hs & Ht & Hr & Hz & Hc) Hi. unfold particle, item1.
  rewrite (load_out_of_range (randoms a)) by lia.
  destruct (item3 (positions a) i), (item3 (scatterPos a) i),
    (item3 (treePos a) i); reflexivity.
Qed.

(** The generated pool, particle by particle. *)
Lemma generate_drawn (room : nat -> Z) (cfg : Config) (s : rng) :
  fits room (PARTICLE_COUNT cfg) ->
  exists pool,
    generate room cfg s
    = Ok (pool, drop (8 * Z.to_nat (PARTICLE_COUNT cfg)) s)
    /\ (forall i, (i < Z.to_nat (PARTICLE_COUNT cfg))%nat ->
          particle pool i = Some (stored (drawn cfg (drop (8 * i) s))))
    /\ (forall i, (Z.to_nat (PARTICLE_COUNT cfg) <= i)%nat ->
          particle pool i = None).
Proof.
  intros H. rewrite PoolFacts.generate_ok by exact H. cbv zeta.
  set (n := Z.to_nat (PARTICLE_COUNT cfg)).
  set (a0 := mkPool _ _ _ _ _ _).
  assert (H0 : shape n a0)
    by (unfold shape, a0; cbn; rewrite !repeat_length; tauto).
  destruct (loop_particles cfg n n 0 a0 s H0 ltac:(lia)) as (E & _ & Hnew).
  pose proof (PoolFacts.loop_shape cfg n n 0 a0 s H0) as Hshape.
  destruct (loop cfg n 0 a0 s) as [pool s'] eqn:El. cbn [fst snd] in *.
  subst s'. exists pool. split; [reflexivity |]. split.
  - intros i Hi. exact (Hnew i Hi).
  - intros i Hi. now apply particle_out_of_range with (n := n).
Qed.

Lemma roomy_fits_two : fits roomy (PARTICLE_COUNT small_config).
Proof.
  unfold fits. rewrite !PoolFacts.can_construct_spec. unfold roomy.
  change (PARTICLE_COUNT small_config) with 2%Z.
  change MAX_LENGTH with 2251799813685247%Z. lia.
Qed.

(** X5: when the six typed-array constructions of a pool of [n] particles
    succeed, the generation returns a pool in which particle [i < n], read
    as the buffer attributes read it, is the particle drawn from the draws
    [8 i .. 8 i + 7] of the stream with each of its numbers rounded to
    single precision by the store; reading a particle at an index from
    [n] on gives nothing, and [8 n] draws have been consumed. *)
Theorem generate_particles (room : nat -> Z) (cfg : Config) (s : rng) :
  fits room (PARTICLE_COUNT cfg) ->
  exists pool,
    generate room cfg s
    = Ok (pool, drop (8 * Z.to_nat (PARTICLE_COUNT cfg)) s)
    /\ (forall i, (i < Z.to_nat (PARTICLE_COUNT cfg))%nat ->
          particle pool i = Some (stored (drawn cfg (drop (8 * i) s))))
    /\ (forall i, (Z.to_nat (PARTICLE_COUNT cfg) <= i)%nat ->
          particle pool i = None).
Proof. exact (generate_drawn room cfg s). Qed.

Lemma generate_particles_witness :
  fits roomy (PARTICLE_COUNT small_config)
  /\ exists pool,
       generate roomy small_config halves = Ok (pool, drop 16 halves)
       /\ particle pool 1 = Some (stored (drawn small_config (drop 8 halves)))
       /\ particle pool 2 = None.
Proof.
  split; [exact roomy_fits_two |].
  destruct (generate_particles roomy small_config halves roomy_fits_two)
    as [pool [E [A B]]].
  exists pool. split; [exact E |].
  split; [apply (A 1%nat); cbn; lia | apply B; cbn; lia].
Defined.

End ParticleFacts.

(* ================================================================= *)
(** ** More on the point generators *)

Lemma Rpower_unit (p e : R) : 0 < p <= 1 -> 0 <= e -> 0 < Rpower p e <= 1.
Proof.
  intros [Hp0 Hp1] He. unfold Rpower. split; [apply exp_pos |].
  assert (L : ln p <= 0).
  { destruct Hp1 as [Hlt | ->]; [| rewrite ln_1; lra].
    left. rewrite <- ln_1. apply ln_increasing; lra. }
  destruct (Req_dec (e * ln p) 0) as [E | E].
  - rewrite E, exp_0. lra.
  - left. rewrite <- exp_0. apply exp_increasing. nra.
Qed.

Section MoreGenerators.

Variable s : rng.
Hypothesis draws : in_unit s.

(** The length of a scatter point, exactly. *)
Lemma randomInSphere_length_fin (radius : R) :
  Vector3.length (fst (randomInSphere (Fin radius) s))
  = Fin (cbrt (s 2%nat) * Rabs radius).
Proof.
  rewrite (randomInSphere_fin s draws). cbv zeta. cbn [fst].
  set (theta := 2 * PI * s 0%nat).
  set (phi := acos (2 * s 1%nat - 1)).
  set (r := cbrt (s 2%nat) * radius).
  assert (Hc : 0 <= cbrt (s 2%nat) < 1) by (apply cbrt_unit, draws).
  assert (Hsum : r * sin phi * cos theta * (r * sin phi * cos theta)
                 + r * sin phi * sin theta * (r * sin phi * sin theta)
                 + r * cos phi * (r * cos phi) = Rsqr r).
  { pose proof (sin2_cos2 theta) as Ht. pose proof (sin2_cos2 phi) as Hp.
    unfold Rsqr in *.
    transitivity (r * r * (sin phi * sin phi
                           * (sin theta * sin theta + cos theta * cos theta)
                           + cos phi * cos phi)); [ring |].
    rewrite Ht, Rmult_1_r, Hp. ring. }
  unfold Vector3.length, Vector3.fin. cbn. rewrite Hsum.
  destruct (Rlt_dec (Rsqr r) 0) as [N | _].
  - exfalso. pose proof (Rle_0_sqr r). lra.
  - f_equal. rewrite sqrt_Rsqr_abs. unfold r.
    rewrite Rabs_mult, (Rabs_pos_eq (cbrt (s 2%nat))) by lra. reflexivity.
Qed.

(** The formation point in closed form, with the taper factor bounded. *)
Lemma randomOnTree_taper (height radiusBase yMin yMax : R) :
  height <> 0 -> 0 <= yMin <= 1 -> 0 <= yMax <= 1 ->
  exists q,
    0 <= q <= 1 /\
    randomOnTree (Fin height) (Fin radiusBase) (Fin yMin) (Fin yMax) s =
    (let y := s 0%nat * (height * yMax - height * yMin) + height * yMin in
     let theta := s 1%nat * PI * 2 in
     let layerNoise := sin (y * 3.0) * 0.15 in
     Vector3.fin ((radiusBase * q + layerNoise) * cos theta) (y - height / 2)
                 ((radiusBase * q + layerNoise) * sin theta),
     drop 2 s).
Proof.
  intros Hh Hmin Hmax.
  pose proof (draws 0%nat) as H0.
  set (yv := s 0%nat * (height * yMax - height * yMin) + height * yMin).
  assert (Hq : yv / height = s 0%nat * (yMax - yMin) + yMin)
    by (unfold yv; field; exact Hh).
  assert (Hpct : 0 <= 1 - yv / height <= 1) by (rewrite Hq; nra).
  assert (Hy : (Fin (s 0%nat) * (Fin height * Fin yMax - Fin height * Fin yMin)
                + Fin height * Fin yMin)%js = Fin yv)
    by (cbn; f_equal; unfold yv; ring).
  assert (Hp : exists q, 0 <= q <= 1
                 /\ Math_pow (Fin 1 - Fin (yv / height))%js 1.2 = Fin q).
  { cbn. destruct (total_order_T (1 + - (yv / height)) 0) as [[H | H] | H].
    - exfalso; lra.
    - exists 0. split; [lra | reflexivity].
    - eexists. split; [| reflexivity].
      assert (B : 0 < Rpower (1 + - (yv / height)) 1.2 <= 1)
        by (apply Rpower_unit; lra).
      lra. }
  destruct Hp as [q [Hq01 Hp]]. exists q. split; [exact Hq01 |].
  unfold randomOnTree, bind, Math_random, ret. cbv zeta.
  rewrite Hy. rewrite !div_fin by lra. rewrite Hp.
  cbn. unfold Vector3.fin, drop. cbn. repeat f_equal.
Qed.

(** A sampled height fraction above [1] makes the taper a power of a
    negative number. *)
Lemma randomOnTree_above_apex (height yMin yMax : R) (radiusBase : num) :
  height <> 0 -> 1 < yMin + s 0%nat * (yMax - yMin) ->
  Vector3.x (fst (randomOnTree (Fin height) radiusBase (Fin yMin) (Fin yMax) s))
  = NaN
  /\ Vector3.z (fst (randomOnTree (Fin height) radiusBase (Fin yMin) (Fin yMax) s))
     = NaN.
Proof.
  intros Hh Hf.
  set (yv := s 0%nat * (height * yMax - height * yMin) + height * yMin).
  assert (Hq : yv / height = s 0%nat * (yMax - yMin) + yMin)
    by (unfold yv; field; exact Hh).
  assert (Hy : (Fin (s 0%nat) * (Fin height * Fin yMax - Fin height * Fin yMin)
                + Fin height * Fin yMin)%js = Fin yv)
    by (cbn; f_equal; unfold yv; ring).
  assert (Hp : Math_pow (Fin 1 - Fin (yv / height))%js 1.2 = NaN).
  { cbn. destruct (total_order_T (1 + - (yv / height)) 0) as [[H | H] | H];
      [reflexivity | exfalso; lra | exfalso; lra]. }
  unfold randomOnTree, bind, Math_random, ret. cbv zeta.
  rewrite Hy. rewrite !div_fin by lra. rewrite Hp.
  cbn [fst Vector3.x Vector3.z].
  destruct radiusBase; split; reflexivity.
Qed.

End MoreGenerators.

(** X6: for every finite radius, negative ones included, and all draws the
    scatter point has length [cbrt(w) * |radius|] and height coordinate
    [cbrt(w) * radius * (2 v - 1)], where [v] and [w] are the second and
    third draw: the length depends on the third draw alone and the height
    is linear in the second. *)
Theorem randomInSphere_length_and_height (radius : R) (s : rng) :
  in_unit s ->
  Vector3.length (fst (randomInSphere (Fin radius) s))
  = Fin (cbrt (s 2%nat) * Rabs radius)
  /\ Vector3.z (fst (randomInSphere (Fin radius) s))
     = Fin (cbrt (s 2%nat) * radius * (2 * s 1%nat - 1)).
Proof.
  intros Hs. split; [now apply randomInSphere_length_fin |].
  rewrite (randomInSphere_fin s Hs). cbv zeta. cbn [fst Vector3.fin Vector3.z].
  pose proof (Hs 1%nat) as H1. rewrite cos_acos by lra. reflexivity.
Qed.

Lemma randomInSphere_length_and_height_witness :
  in_unit halves
  /\ Vector3.length (fst (randomInSphere (Fin (-12)) halves))
     = Fin (cbrt (halves 2%nat) * Rabs (-12)).
Proof.
  split; [exact halves_in_unit |].
  exact (proj1 (randomInSphere_length_and_height (-12) halves halves_in_unit)).
Defined.

(** X7: for a height that is not zero and at most [1e300] in magnitude
    (where the product [y * 3.0] of the program cannot overflow), both
    ratios in [[0,1]] and a finite base radius, the formation point is
    finite and its horizontal distance from the axis of the tree is at
    most [|radiusBase| + 0.15]. *)
Theorem randomOnTree_within_base (height radiusBase yMin yMax : R) (s : rng) :
  in_unit s -> height <> 0 -> Rabs height <= 1e300 ->
  0 <= yMin <= 1 -> 0 <= yMax <= 1 ->
  exists px py pz,
    fst (randomOnTree (Fin height) (Fin radiusBase) (Fin yMin) (Fin yMax) s)
    = Vector3.fin px py pz
    /\ sqrt (px * px + pz * pz) <= Rabs radiusBase + 0.15.
Proof.
  intros Hs Hh _ Hmin Hmax.
  destruct (randomOnTree_taper s Hs height radiusBase yMin yMax Hh Hmin Hmax)
    as (q & Hq & E).
  rewrite E. cbv zeta. cbn [fst].
  set (y := s 0%nat * (height * yMax - height * yMin) + height * yMin).
  set (theta := s 1%nat * PI * 2).
  set (d := radiusBase * q + sin (y * 3.0) * 0.15).
  exists (d * cos theta), (y - height / 2), (d * sin theta).
  split; [reflexivity |].
  assert (Hsum : d * cos theta * (d * cos theta) + d * sin theta * (d * sin theta)
                 = Rsqr d).
  { pose proof (sin2_cos2 theta) as Ht. unfold Rsqr in *.
    transitivity (d * d * (sin theta * sin theta + cos theta * cos theta));
      [ring |]. rewrite Ht. ring. }
  rewrite Hsum, sqrt_Rsqr_abs. unfold d.
  eapply Rle_trans; [apply Rabs_triang |].
  rewrite !Rabs_mult.
  pose proof (Rabs_pos radiusBase) as Hr.
  pose proof (SIN_bound (y * 3.0)) as [Hs1 Hs2].
  assert (Hsin : Rabs (sin (y * 3.0)) <= 1) by (apply Rabs_le; lra).
  rewrite (Rabs_pos_eq q) by lra.
  rewrite (Rabs_pos_eq 0.15) by lra.
  nra.
Qed.

Lemma randomOnTree_within_base_witness :
  in_unit halves /\ 12 <> 0 /\ Rabs 12 <= 1e300
  /\ 0 <= 0 <= 1 /\ 0 <= 1 <= 1
  /\ exists px py pz,
       fst (randomOnTree (Fin 12) (Fin 4.5) (Fin 0) (Fin 1) halves)
       = Vector3.fin px py pz
       /\ sqrt (px * px + pz * pz) <= Rabs 4.5 + 0.15.
Proof.
  assert (Hh : 12 <> 0) by lra.
  assert (H0 : 0 <= 0 <= 1) by lra.
  assert (H1 : 0 <= 1 <= 1) by lra.
  assert (Hb : Rabs 12 <= 1e300) by (rewrite Rabs_pos_eq; lra).
  split; [exact halves_in_unit |].
  split; [exact Hh |]. split; [exact Hb |].
  split; [exact H0 |]. split; [exact H1 |].
  exact (randomOnTree_within_base 12 4.5 0 1 halves halves_in_unit Hh Hb H0 H1).
Defined.



(** X9: a band that reaches above the apex is not rejected: when the
    sampled fraction of the height, [yMin + u * (yMax - yMin)] for the
    first draw [u], exceeds [1], the two horizontal coordinates of the
    formation point are NaN, for every base radius and height other than
    zero. *)
Theorem randomOnTree_above_apex_nan (height yMin yMax : R) (radiusBase : num)
    (s : rng) :
  height <> 0 -> 1 < yMin + s 0%nat * (yMax - yMin) ->
  Vector3.x (fst (randomOnTree (Fin height) radiusBase (Fin yMin) (Fin yMax) s))
  = NaN
  /\ Vector3.z (fst (randomOnTree (Fin height) radiusBase (Fin yMin) (Fin yMax) s))
     = NaN.
Proof. intros Hh Hf. now apply randomOnTree_above_apex. Qed.

Lemma randomOnTree_above_apex_nan_witness :
  12 <> 0 /\ 1 < 1 + halves 0%nat * (2 - 1)
  /\ Vector3.x (fst (randomOnTree (Fin 12) (Fin 4.5) (Fin 1) (Fin 2) halves))
     = NaN.
Proof.
  assert (Hh : 12 <> 0) by lra.
  assert (Hf : 1 < 1 + halves 0%nat * (2 - 1)) by (unfold halves; lra).
  split; [exact Hh |]. split; [exact Hf |].
  exact (proj1 (randomOnTree_above_apex_nan 12 1 2 (Fin 4.5) halves Hh Hf)).
Defined.

(* ================================================================= *)
(** ** The attributes of the generated particles *)

Module ParticleRanges.
Import Foliage Attribute.

(** The colour class as a function of the draw. *)
Lemma colorType_fin (u : R) :
  colorType (Fin u) =
  if Rlt_dec 0.95 u then Fin 3.0
  else if Rlt_dec 0.80 u then Fin 2.0
  else if Rlt_dec 0.50 u then Fin 1.0
  else Fin 0.0.
Proof.
  unfold colorType, gt, lt.
  destruct (Rlt_dec 0.95 u); [reflexivity |].
  destruct (Rlt_dec 0.80 u); [reflexivity |].
  destruct (Rlt_dec 0.50 u); reflexivity.
Qed.

Lemma stored3_within (k : Z) (a b c : R) :
  IZR k <= bpow 23 ->
  Rabs a <= IZR k -> Rabs b <= IZR k -> Rabs c <= IZR k ->
  within (IZR k) (stored3 (Vector3.fin a b c)).
Proof.
  intros Hk Ha Hb Hc.
  assert (Hone : forall v, Rabs v <= IZR k ->
            exists w, Math_fround (Fin v) = Fin w /\ Rabs w <= IZR k).
  { intros v Hv. apply Rabs_le_inv in Hv as Hv'.
    destruct (fround_int v (- k) k) as (w & E & B).
    - lra.
    - rewrite opp_IZR. exact Hv'.
    - exists w. split; [exact E |]. rewrite opp_IZR in B. now apply Rabs_le. }
  destruct (Hone a Ha) as (a' & Ea & Ba).
  destruct (Hone b Hb) as (b' & Eb & Bb).
  destruct (Hone c Hc) as (c' & Ec & Bc).
  exists a', b', c'. unfold stored3, Vector3.fin. cbn [Vector3.x Vector3.y Vector3.z].
  rewrite Ea, Eb, Ec. repeat split; assumption.
Qed.

Lemma Rabs_mult_le_1 a b : Rabs b <= 1 -> Rabs (a * b) <= Rabs a.
Proof.
  intros H. rewrite Rabs_mult. pose proof (Rabs_pos a). pose proof (Rabs_pos b). nra.
Qed.

Lemma Rabs_sin_le t : Rabs (sin t) <= 1.
Proof. apply Rabs_le. pose proof (SIN_bound t). lra. Qed.

Lemma Rabs_cos_le t : Rabs (cos t) <= 1.
Proof. apply Rabs_le. pose proof (COS_bound t). lra. Qed.

Lemma roomy_fits_source : fits roomy (PARTICLE_COUNT source_config).
Proof.
  unfold fits. rewrite !PoolFacts.can_construct_spec. unfold roomy.
  change (PARTICLE_COUNT source_config) with 18000%Z.
  change MAX_LENGTH with 2251799813685247%Z. lia.
Qed.

(** X10: let the six constructions succeed, the draws be in [[0,1)], the
    tree height [h] be positive and an integer [k <= 2^23] bound both
    [h / 2] and the tree radius plus [0.15] in magnitude.  Then every
    particle [i] below the particle count, as the buffers hold it, has its
    buffer position equal to its scatter position, a finite scatter
    position with coordinates within [15], a finite tree position with
    coordinates within [k], a seed in [[0,1]], a size in [[0.5, 1]] and a
    colour type among [0], [1], [2] and [3]; the closed upper ends are
    those that rounding to single precision can reach. *)
Theorem generate_particle_ranges (room : nat -> Z) (cfg : Config) (s : rng)
    (h r : R) (k : Z) :
  TREE_HEIGHT cfg = Fin h -> 0 < h -> TREE_RADIUS cfg = Fin r ->
  h / 2 <= IZR k -> Rabs r + 0.15 <= IZR k -> (k <= 8388608)%Z ->
  in_unit s -> fits room (PARTICLE_COUNT cfg) ->
  exists pool s',
    generate room cfg s = Ok (pool, s')
    /\ forall i, (i < Z.to_nat (PARTICLE_COUNT cfg))%nat ->
         exists p,
           particle pool i = Some p
           /\ position p = aScatterPos p
           /\ within 15 (aScatterPos p)
           /\ within (IZR k) (aTreePos p)
           /\ (exists u, aRandom p = Fin u /\ 0 <= u <= 1)
           /\ (exists z, aSize p = Fin z /\ 0.5 <= z <= 1)
           /\ In (aColorType p) [Fin 0; Fin 1; Fin 2; Fin 3].
Proof.
  intros Hh Hpos Hr Hk1 Hk2 Hk Hs Hn.
  assert (Hkb : IZR k <= bpow 23) by (rewrite bpow_23; apply IZR_le in Hk; lra).
  destruct (ParticleFacts.generate_drawn room cfg s Hn) as (pool & E & Hin & _).
  exists pool, (drop (8 * Z.to_nat (PARTICLE_COUNT cfg)) s).
  split; [exact E |]. intros i Hi. rewrite (Hin i Hi).
  set (si := drop (8 * i) s).
  assert (Hsi : in_unit si) by (apply drop_in_unit, Hs).
  eexists. split; [reflexivity |].
  unfold stored, drawn. cbv zeta.
  cbn [position aScatterPos aTreePos aRandom aSize aColorType].
  rewrite Hh, Hr. unfold randomOnTree_default.
  assert (H0 : 0 <= 0 <= 1) by lra. assert (H1 : 0 <= 1 <= 1) by lra.
  assert (Hne : h <> 0) by lra.
  destruct (randomOnTree_taper si Hsi h r 0 1 Hne H0 H1) as (q & Hq & Eq).
  rewrite Eq. cbv zeta. cbn [fst].
  rewrite (randomInSphere_fin (drop 2 si) (drop_in_unit 2 si Hsi)).
  cbv zeta. cbn [fst].
  pose proof (Hsi 0%nat) as D0. pose proof (Hsi 5%nat) as D5.
  pose proof (Hsi 6%nat) as D6.
  pose proof (cbrt_unit _ (drop_in_unit 2 si Hsi 2%nat)) as Hc.
  split; [reflexivity |].
  split.
  { change 15 with (IZR 15). apply stored3_within.
    - rewrite bpow_23. lra.
    - eapply Rle_trans; [apply Rabs_mult_le_1, Rabs_cos_le |].
      eapply Rle_trans; [apply Rabs_mult_le_1, Rabs_sin_le |].
      apply Rabs_le. nra.
    - eapply Rle_trans; [apply Rabs_mult_le_1, Rabs_sin_le |].
      eapply Rle_trans; [apply Rabs_mult_le_1, Rabs_sin_le |].
      apply Rabs_le. nra.
    - eapply Rle_trans; [apply Rabs_mult_le_1, Rabs_cos_le |].
      apply Rabs_le. nra. }
  assert (Hd : forall t, Rabs (r * q + sin t * 0.15) <= IZR k).
  { intros t. eapply Rle_trans; [apply Rabs_triang |].
    rewrite !Rabs_mult. pose proof (Rabs_sin_le t). pose proof (Rabs_pos r).
    pose proof (Rabs_pos (sin t)).
    rewrite (Rabs_pos_eq q), (Rabs_pos_eq 0.15) by lra. nra. }
  split.
  { apply stored3_within; [exact Hkb | | |].
    - eapply Rle_trans; [apply Rabs_mult_le_1, Rabs_cos_le | apply Hd].
    - apply Rabs_le. nra.
    - eapply Rle_trans; [apply Rabs_mult_le_1, Rabs_sin_le | apply Hd]. }
  split.
  { destruct (fround_int (si 5%nat) 0 1) as (u & Eu & Bu).
    - rewrite bpow_23. apply Rabs_le. lra.
    - lra.
    - exists u. split; [exact Eu | exact Bu]. }
  split.
  { assert (Es : (Fin (si 6%nat) * Fin 0.5 + Fin 0.5)%js
                 = Fin (si 6%nat * 0.5 + 0.5)) by reflexivity.
    rewrite Es.
    destruct (fround_half (si 6%nat * 0.5 + 0.5) 1 2) as (z & Ez & Bz).
    - assert (bpow 22 = 4194304) by (unfold bpow, powerRZ; simpl; lra).
      apply Rabs_le. lra.
    - lra.
    - exists z. split; [exact Ez | lra]. }
  rewrite colorType_fin.
  assert (F : forall j : Z, (0 <= j <= 3)%Z -> forall v, v = IZR j ->
            Math_fround (Fin v) = Fin (IZR j)).
  { intros j Hj v ->. apply fround_IZR. rewrite bpow_23.
    destruct Hj as [J0 J1]. apply IZR_le in J0, J1. apply Rabs_le. lra. }
  destruct (Rlt_dec 0.95 (si 7%nat));
    [rewrite (F 3%Z) by (try lia; lra); cbn; tauto |].
  destruct (Rlt_dec 0.80 (si 7%nat));
    [rewrite (F 2%Z) by (try lia; lra); cbn; tauto |].
  destruct (Rlt_dec 0.50 (si 7%nat));
    [rewrite (F 1%Z) by (try lia; lra); cbn; tauto |].
  rewrite (F 0%Z) by (try lia; lra). cbn; tauto.
Qed.

Lemma generate_particle_ranges_witness :
  TREE_HEIGHT source_config = Fin 12 /\ 0 < 12
  /\ TREE_RADIUS source_config = Fin 4.5
  /\ 12 / 2 <= IZR 6 /\ Rabs 4.5 + 0.15 <= IZR 6 /\ (6 <= 8388608)%Z
  /\ in_unit halves /\ fits roomy (PARTICLE_COUNT source_config)
  /\ exists pool s',
       generate roomy source_config halves = Ok (pool, s')
       /\ exists p,
            particle pool 1 = Some p
            /\ within 15 (aScatterPos p)
            /\ within (IZR 6) (aTreePos p)
            /\ (exists z, aSize p = Fin z /\ 0.5 <= z <= 1).
Proof.
  assert (Hpos : 0 < 12) by lra.
  assert (Hk1 : 12 / 2 <= IZR 6) by lra.
  assert (Hk2 : Rabs 4.5 + 0.15 <= IZR 6) by (rewrite Rabs_pos_eq; lra).
  assert (Hk : (6 <= 8388608)%Z) by lia.
  split; [reflexivity |]. split; [exact Hpos |]. split; [reflexivity |].
  split; [exact Hk1 |]. split; [exact Hk2 |]. split; [exact Hk |].
  split; [exact halves_in_unit |]. split; [exact roomy_fits_source |].
  destruct (generate_particle_ranges roomy source_config halves 12 4.5 6
              eq_refl Hpos eq_refl Hk1 Hk2 Hk halves_in_unit roomy_fits_source)
    as (pool & s' & E & Hall).
  exists pool, s'. split; [exact E |].
  destruct (Hall 1%nat) as (p & Ep & _ & Hsc & Htr & _ & Hsz & _).
  { change (PARTICLE_COUNT source_config) with 18000%Z. lia. }
  exists p. repeat split; assumption.
Defined.

(** X11: the colour draw [u] of a particle decides its colour type, and
    the type decides the base colour in the vertex shader: gold for
    [u > 0.95], silver for [0.80 < u <= 0.95], red for
    [0.50 < u <= 0.80], and otherwise the green gradient between the deep
    and the emerald green. *)
Theorem colorType_baseColor (u c : R) (a : Shader.Attributes)
    (uni : Shader.Uniforms) :
  colorType (Fin u) = Fin c -> Shader.aColorType a = c ->
  (0.95 < u -> ShaderColor.baseColor a uni = ShaderColor.cGold)
  /\ (0.80 < u <= 0.95 -> ShaderColor.baseColor a uni = ShaderColor.cSilver)
  /\ (0.50 < u <= 0.80 -> ShaderColor.baseColor a uni = ShaderColor.cRed)
  /\ (u <= 0.50 ->
      ShaderColor.baseColor a uni
      = Shader.mix ShaderColor.cDeep ShaderColor.cEmerald
          ((Shader.y (Shader.aTreePos a) + 6.0) / 12.0
           + Shader.breath (Shader.uTime uni) (Shader.aRandom a) * 2.0)).
Proof.
  intros Hc Ha. rewrite colorType_fin in Hc. unfold ShaderColor.baseColor.
  rewrite Ha.
  destruct (Rlt_dec 0.95 u) as [L3 | L3];
    [| destruct (Rlt_dec 0.80 u) as [L2 | L2];
       [| destruct (Rlt_dec 0.50 u) as [L1 | L1]]];
    apply Fin_inj in Hc; subst c;
    repeat match goal with
           | |- context [Rlt_dec ?x ?y] =>
               destruct (Rlt_dec x y); try (exfalso; lra)
           end;
    repeat split; intros; try reflexivity; exfalso; lra.
Qed.

Lemma colorType_baseColor_witness :
  colorType (Fin 0.97) = Fin 3.0
  /\ 0.95 < 0.97
  /\ ShaderColor.baseColor
       (Shader.mkAttributes (Shader.mkvec3 3 4 5) (Shader.mkvec3 1 6 2) 0.1 1 3.0)
       (Shader.mkUniforms 0 0.5 1)
     = ShaderColor.cGold.
Proof.
  assert (Hc : colorType (Fin 0.97) = Fin 3.0).
  { rewrite colorType_fin. destruct (Rlt_dec 0.95 0.97); [reflexivity | lra]. }
  assert (Hu : 0.95 < 0.97) by lra.
  split; [exact Hc |]. split; [exact Hu |].
  exact (proj1 (colorType_baseColor 0.97 3.0
                  (Shader.mkAttributes (Shader.mkvec3 3 4 5) (Shader.mkvec3 1 6 2)
                     0.1 1 3.0)
                  (Shader.mkUniforms 0 0.5 1) Hc eq_refl) Hu).
Defined.

End ParticleRanges.

(* ================================================================= *)
(** ** More on the ornaments *)

Module OrnamentMore.
Import Ornament.

(** The creation of a box, in closed form. *)
Lemma box_eq cfg s :
  box cfg s =
  (let treeP :=
     fst (randomOnTree_default (TREE_HEIGHT cfg - Fin 0.5)%js
                               (TREE_RADIUS cfg - Fin 0.8)%js s) in
   let scatterP := fst (randomInSphere (Fin 12) (drop 2 s)) in
   mk treeP scatterP scatterP
      (Fin (s 5%nat) * Fin 0.08 + Fin 0.2)%js
      (Fin (s 7%nat) * Fin 0.05 + Fin 0.02)%js
      (Fin (s 8%nat) * Math_PI * Fin 2)%js
      (if lt (Fin (s 6%nat)) (Fin 0.20) then C_GOLD
       else if lt (Fin (s 6%nat)) (Fin 0.60) then C_RED else C_WHITE)
      (Vector3.normalize
         (Vector3.mk (Fin (s 9%nat)) (Fin (s 10%nat)) (Fin (s 11%nat)))),
   drop 12 s).
Proof. reflexivity. Qed.

(** The creation of a blue sphere, in closed form. *)
Lemma blueSphere_eq cfg s :
  blueSphere cfg s =
  (let treeP :=
     fst (randomOnTree (TREE_HEIGHT cfg) (TREE_RADIUS cfg - Fin 0.5)%js
                       (Fin 0.0) (Fin 0.4) s) in
   let scatterP := fst (randomInSphere (Fin 12) (drop 2 s)) in
   mk treeP scatterP scatterP
      (Fin (s 5%nat) * Fin 0.08 + Fin 0.12)%js
      (Fin (s 6%nat) * Fin 0.05 + Fin 0.02)%js
      (Fin (s 7%nat) * Math_PI * Fin 2)%js
      (if gt (Fin (s 8%nat)) (Fin 0.6) then C_BLUE else C_ICE_BLUE)
      (Vector3.normalize
         (Vector3.mk (Fin (s 9%nat)) (Fin (s 10%nat)) (Fin (s 11%nat)))),
   drop 12 s).
Proof. reflexivity. Qed.

Lemma items_Forall (P : t -> Prop) (one : Rand t) (k : nat) :
  (forall s, in_unit s -> snd (one s) = drop k s /\ P (fst (one s))) ->
  forall n s, in_unit s -> Forall P (fst (items n one s)).
Proof.
  intros Hone. induction n as [| n IH]; intros s Hs; cbn [items].
  - constructor.
  - unfold bind. destruct (Hone s Hs) as [E W].
    destruct (one s) as [o s1]. cbn [fst snd] in E, W. subst s1.
    specialize (IH (drop k s) (drop_in_unit k s Hs)).
    destruct (items n one (drop k s)) as [rest s2]. cbn [fst] in *.
    unfold ret. cbn [fst]. now constructor.
Qed.

Lemma items_length (one : Rand t) (k : nat) :
  (forall s, snd (one s) = drop k s) ->
  forall n s,
    length (fst (items n one s)) = n
    /\ snd (items n one s) = drop (k * n) s.
Proof.
  intros Hone. induction n as [| n IH]; intros s; cbn [items].
  - unfold ret. cbn. split; [reflexivity |].
    apply functional_extensionality. intros m. unfold drop. f_equal. lia.
  - unfold bind. pose proof (Hone s) as E.
    destruct (one s) as [o s1]. cbn [snd] in E. subst s1.
    destruct (IH (drop k s)) as [L D].
    destruct (items n one (drop k s)) as [rest s2]. cbn [fst snd] in *.
    unfold ret. cbn [fst snd length]. split; [now rewrite L |].
    rewrite D, drop_drop. f_equal. lia.
Qed.

(** X12: the two families hold as many ornaments as the configuration
    asks for, none for a count of zero or less, and creating them consumes
    twelve draws per ornament. *)
Theorem ornaments_count (cfg : Config) (s : rng) :
  length (fst (boxes cfg s)) = Z.to_nat (BOX_COUNT cfg)
  /\ snd (boxes cfg s) = drop (12 * Z.to_nat (BOX_COUNT cfg)) s
  /\ length (fst (blueSpheres cfg s)) = Z.to_nat (BLUE_SPHERE_COUNT cfg)
  /\ snd (blueSpheres cfg s) = drop (12 * Z.to_nat (BLUE_SPHERE_COUNT cfg)) s
  /\ ((BOX_COUNT cfg <= 0)%Z -> fst (boxes cfg s) = [])
  /\ ((BLUE_SPHERE_COUNT cfg <= 0)%Z -> fst (blueSpheres cfg s) = []).
Proof.
  unfold boxes, blueSpheres.
  destruct (items_length (box cfg) 12 (fun s0 => eq_refl)
              (Z.to_nat (BOX_COUNT cfg)) s) as [L1 D1].
  destruct (items_length (blueSphere cfg) 12 (fun s0 => eq_refl)
              (Z.to_nat (BLUE_SPHERE_COUNT cfg)) s) as [L2 D2].
  repeat split; try assumption.
  - intros H. replace (Z.to_nat (BOX_COUNT cfg)) with 0%nat by lia. reflexivity.
  - intros H. replace (Z.to_nat (BLUE_SPHERE_COUNT cfg)) with 0%nat by lia.
    reflexivity.
Qed.

Lemma ornaments_count_witness :
  (BOX_COUNT (mkConfig (Fin 12) (Fin 4.5) 18000 (-3) 0) <= 0)%Z
  /\ fst (boxes (mkConfig (Fin 12) (Fin 4.5) 18000 (-3) 0) halves) = [].
Proof.
  assert (H : (BOX_COUNT (mkConfig (Fin 12) (Fin 4.5) 18000 (-3) 0) <= 0)%Z)
    by (cbn; lia).
  split; [exact H |].
  exact (proj1 (proj2 (proj2 (proj2 (proj2
           (ornaments_count (mkConfig (Fin 12) (Fin 4.5) 18000 (-3) 0) halves)))))
           H).
Defined.

Lemma scatter_within_12 s :
  in_unit s ->
  le (Vector3.length (fst (randomInSphere (Fin 12) (drop 2 s)))) (Fin 12) = true.
Proof.
  intros Hs.
  rewrite (randomInSphere_length_fin (drop 2 s) (drop_in_unit 2 s Hs)).
  pose proof (cbrt_unit _ (drop_in_unit 2 s Hs 2%nat)) as Hc.
  apply le_fin_true. rewrite Rabs_pos_eq by lra. nra.
Qed.

Lemma phase_range u : 0 <= u < 1 -> 0 <= u * PI * 2 < 2 * PI.
Proof. intros H. pose proof PI_RGT_0. nra. Qed.

(** X13: with a finite tree height [h >= 0.5] (boxes) or [h >= 0] (blue
    spheres) and draws in [[0,1)], every ornament is created at its scatter
    position, which lies within the sphere of radius [12], with a phase in
    [[0, 2 pi)]; a box has a scale in [[0.2, 0.28)] and a tree position of
    height within the tree shortened by [0.5]; a blue sphere has a scale
    in [[0.12, 0.2)] and a tree position in the bottom 40% of the tree. *)
Theorem ornaments_fresh (cfg : Config) (h : R) (s : rng) :
  TREE_HEIGHT cfg = Fin h -> in_unit s ->
  (0.5 <= h -> Forall (fresh_box h) (fst (boxes cfg s)))
  /\ (0 <= h -> Forall (fresh_blueSphere h) (fst (blueSpheres cfg s))).
Proof.
  intros Hh Hs. split; intros Hge.
  - unfold boxes. apply items_Forall with (k := 12%nat); [| exact Hs].
    intros s0 Hs0. rewrite box_eq. cbv zeta. cbn [fst snd].
    split; [reflexivity |]. unfold fresh_box.
    cbn [currentPos scatterPos treePos scale phase].
    rewrite Hh. unfold randomOnTree_default. cbn [sub add neg].
    rewrite randomOnTree_y.
    pose proof (Hs0 0%nat) as D0. pose proof (Hs0 5%nat) as D5.
    pose proof (Hs0 8%nat) as D8.
    split; [reflexivity |]. split; [now apply scatter_within_12 |].
    split; [eexists; split; [reflexivity | nra] |].
    split; [eexists; split; [cbn; reflexivity | lra] |].
    eexists; split; [cbn; reflexivity | now apply phase_range].
  - unfold blueSpheres. apply items_Forall with (k := 12%nat); [| exact Hs].
    intros s0 Hs0. rewrite blueSphere_eq. cbv zeta. cbn [fst snd].
    split; [reflexivity |]. unfold fresh_blueSphere.
    cbn [currentPos scatterPos treePos scale phase].
    rewrite Hh. rewrite randomOnTree_y.
    pose proof (Hs0 0%nat) as D0. pose proof (Hs0 5%nat) as D5.
    pose proof (Hs0 7%nat) as D7.
    split; [reflexivity |]. split; [now apply scatter_within_12 |].
    split; [eexists; split; [reflexivity | nra] |].
    split; [eexists; split; [cbn; reflexivity | lra] |].
    eexists; split; [cbn; reflexivity | now apply phase_range].
Qed.

Lemma ornaments_fresh_witness :
  TREE_HEIGHT source_config = Fin 12 /\ in_unit halves /\ 0 <= 12
  /\ Forall (fresh_blueSphere 12) (fst (blueSpheres source_config halves)).
Proof.
  assert (Hh : 0 <= 12) by lra.
  split; [reflexivity |]. split; [exact halves_in_unit |]. split; [exact Hh |].
  exact (proj2 (ornaments_fresh source_config 12 halves eq_refl halves_in_unit) Hh).
Defined.

End OrnamentMore.

Module OrnamentMotion.
Import Ornament.

Lemma sum_squares_zero a b c :
  a * a + b * b + c * c = 0 -> a = 0 /\ b = 0 /\ c = 0.
Proof.
  intros H.
  pose proof (Rle_0_sqr a) as Ha. pose proof (Rle_0_sqr b) as Hb.
  pose proof (Rle_0_sqr c) as Hc. unfold Rsqr in *.
  repeat split; apply Rsqr_0_uniq; unfold Rsqr; lra.
Qed.

(** [normalize] on a finite vector: the zero vector stays as it is, any
    other is scaled to length one. *)
Lemma normalize_fin a b c :
  (a * a + b * b + c * c = 0 ->
   Vector3.normalize (Vector3.fin a b c) = Vector3.fin 0 0 0)
  /\ (a * a + b * b + c * c <> 0 ->
      Vector3.finite (Vector3.normalize (Vector3.fin a b c))
      /\ Vector3.length (Vector3.normalize (Vector3.fin a b c)) = Fin 1).
Proof.
  set (S := a * a + b * b + c * c).
  assert (HS : 0 <= S).
  { pose proof (Rle_0_sqr a) as Ha. pose proof (Rle_0_sqr b) as Hb.
    pose proof (Rle_0_sqr c) as Hc. unfold Rsqr in *. unfold S. lra. }
  assert (El : Vector3.length (Vector3.fin a b c) = Fin (sqrt S)).
  { unfold Vector3.length, Vector3.fin. cbn. fold S.
    destruct (Rlt_dec S 0); [exfalso; lra | reflexivity]. }
  unfold Vector3.normalize. rewrite El. unfold or_else, truthy.
  split; intros H.
  - rewrite H, sqrt_0.
    destruct (Req_dec_T 0 0) as [_ | N]; [| now elim N].
    destruct (sum_squares_zero a b c H) as (-> & -> & ->).
    unfold Vector3.divideScalar, Vector3.multiplyScalar, Vector3.fin.
    rewrite div_fin by lra. cbn. repeat f_equal; field.
  - assert (Hn : sqrt S <> 0).
    { intros E. apply sqrt_eq_0 in E; [contradiction | exact HS]. }
    destruct (Req_dec_T (sqrt S) 0) as [E | _]; [contradiction |].
    unfold Vector3.divideScalar, Vector3.multiplyScalar, Vector3.fin.
    rewrite div_fin by exact Hn. cbn [Vector3.x Vector3.y Vector3.z mul].
    split; [unfold Vector3.finite, is_finite; cbn; repeat split; now eexists |].
    unfold Vector3.length. cbn.
    assert (Esum : a * (1 / sqrt S) * (a * (1 / sqrt S))
                   + b * (1 / sqrt S) * (b * (1 / sqrt S))
                   + c * (1 / sqrt S) * (c * (1 / sqrt S)) = 1).
    { transitivity (S * / (sqrt S * sqrt S)); [unfold S; field; exact Hn |].
      rewrite sqrt_sqrt by exact HS. field. exact H. }
    rewrite Esum. destruct (Rlt_dec 1 0); [exfalso; lra |].
    now rewrite sqrt_1.
Qed.

(** X14: the rotation axis of every created ornament is normalised: it is
    finite and of length one, unless the three draws it is built from are
    all zero, in which case it is the zero vector rather than NaN. *)
Theorem rotationAxis_normalised (cfg : Config) (s : rng) :
  let zero := s 9%nat = 0 /\ s 10%nat = 0 /\ s 11%nat = 0 in
  rotationAxis (fst (box cfg s)) = rotationAxis (fst (blueSphere cfg s))
  /\ (zero -> rotationAxis (fst (box cfg s)) = Vector3.fin 0 0 0)
  /\ (~ zero ->
      Vector3.finite (rotationAxis (fst (box cfg s)))
      /\ Vector3.length (rotationAxis (fst (box cfg s))) = Fin 1).
Proof.
  cbv zeta. rewrite OrnamentMore.box_eq, OrnamentMore.blueSphere_eq.
  cbv zeta. cbn [fst rotationAxis].
  destruct (normalize_fin (s 9%nat) (s 10%nat) (s 11%nat)) as [Hz Hn].
  unfold Vector3.fin in Hz, Hn.
  split; [reflexivity |]. split.
  - intros (E9 & E10 & E11). apply Hz. rewrite E9, E10, E11. ring.
  - intros Hnz. apply Hn. intros E. apply Hnz. now apply sum_squares_zero.
Qed.

Lemma rotationAxis_normalised_witness :
  ~ (halves 9%nat = 0 /\ halves 10%nat = 0 /\ halves 11%nat = 0)
  /\ Vector3.length (rotationAxis (fst (box source_config halves))) = Fin 1.
Proof.
  assert (H : ~ (halves 9%nat = 0 /\ halves 10%nat = 0 /\ halves 11%nat = 0))
    by (unfold halves; intros [E _]; lra).
  split; [exact H |].
  exact (proj2 (proj2 (proj2 (rotationAxis_normalised source_config halves)) H)).
Defined.

Lemma target_update b o : target b (update b o) = target b o.
Proof. now destruct b. Qed.

(** The position after [n] updates in the same form. *)
Lemma frames_fin b a tx ty tz n : forall o cx cy cz,
  speed o = Fin a ->
  currentPos o = Vector3.fin cx cy cz ->
  target b o = Vector3.fin tx ty tz ->
  speed (Ornament_frames b n o) = Fin a
  /\ target b (Ornament_frames b n o) = Vector3.fin tx ty tz
  /\ currentPos (Ornament_frames b n o)
     = Vector3.fin (tx + (1 - a) ^ n * (cx - tx)) (ty + (1 - a) ^ n * (cy - ty))
                   (tz + (1 - a) ^ n * (cz - tz)).
Proof.
  induction n as [| n IH]; intros o cx cy cz Ha Hc Ht; cbn [Ornament_frames].
  - repeat split; try assumption. rewrite Hc. unfold Vector3.fin.
    f_equal; f_equal; cbn; ring.
  - pose proof (OrnamentFacts.update_fin b o a _ _ _ _ _ _ Ha Hc Ht) as Hu.
    assert (Ht' : target b (update b o) = Vector3.fin tx ty tz)
      by (rewrite target_update; exact Ht).
    destruct (IH (update b o) _ _ _ Ha Hu Ht') as (Hs & Hg & Hp).
    repeat split; try assumption. rewrite Hp. unfold Vector3.fin.
    f_equal; f_equal; cbn [pow]; ring.
Qed.

(** X15: an ornament with finite positions and a speed [a] in
    [[0.02, 0.07]] that is updated [n] times in the same form keeps its
    speed and its target and stands at
    [target + (1 - a)^n * (start - target)]; its distance to the target is
    [(1 - a)^n] times the initial one and falls below any positive bound. *)
Theorem ornament_converges (b : bool) (o : t) :
  wf o ->
  exists a cx cy cz tx ty tz d,
    speed o = Fin a /\ 0.02 <= a <= 0.07
    /\ currentPos o = Vector3.fin cx cy cz
    /\ target b o = Vector3.fin tx ty tz
    /\ Vector3.distanceTo (currentPos o) (target b o) = Fin d
    /\ (forall n,
          speed (Ornament_frames b n o) = speed o
          /\ target b (Ornament_frames b n o) = target b o
          /\ currentPos (Ornament_frames b n o)
             = Vector3.fin (tx + (1 - a) ^ n * (cx - tx))
                           (ty + (1 - a) ^ n * (cy - ty))
                           (tz + (1 - a) ^ n * (cz - tz))
          /\ Vector3.distanceTo (currentPos (Ornament_frames b n o)) (target b o)
             = Fin ((1 - a) ^ n * d))
    /\ (forall eps, 0 < eps ->
          exists N, forall n, (N <= n)%nat -> (1 - a) ^ n * d < eps).
Proof.
  intros (Ht & Hs & Hc & a & Ha & Hr).
  destruct (OrnamentFacts.finite_fin _ Hc) as (cx & cy & cz & Ec).
  assert (Hg : Vector3.finite (target b o)) by (destruct b; assumption).
  destruct (OrnamentFacts.finite_fin _ Hg) as (tx & ty & tz & Et).
  set (S := (cx - tx) * (cx - tx) + (cy - ty) * (cy - ty) + (cz - tz) * (cz - tz)).
  assert (HS : 0 <= S).
  { pose proof (Rle_0_sqr (cx - tx)) as Hx. pose proof (Rle_0_sqr (cy - ty)) as Hy.
    pose proof (Rle_0_sqr (cz - tz)) as Hz. unfold Rsqr in *. unfold S. lra. }
  exists a, cx, cy, cz, tx, ty, tz, (sqrt S).
  split; [exact Ha |]. split; [exact Hr |]. split; [exact Ec |].
  split; [exact Et |].
  split; [rewrite Ec, Et; apply OrnamentFacts.distanceTo_fin |].
  assert (Hpow : forall n, 0 <= (1 - a) ^ n) by (intros n; apply pow_le; lra).
  split.
  - intros n.
    destruct (frames_fin b a tx ty tz n o cx cy cz Ha Ec Et) as (E1 & E2 & E3).
    rewrite E1, E2, E3, Ha, Et. repeat split.
    rewrite OrnamentFacts.distanceTo_fin. f_equal.
    match goal with |- sqrt ?e = _ =>
      replace e with (((1 - a) ^ n) * ((1 - a) ^ n) * S) by (unfold S; ring) end.
    rewrite sqrt_mult; [| specialize (Hpow n); nra | exact HS].
    rewrite sqrt_square by apply Hpow. reflexivity.
  - intros eps Heps.
    destruct (pow_lt_1_zero (1 - a)) with (y := eps / (sqrt S + 1)) as [N HN].
    { rewrite Rabs_pos_eq; lra. }
    { apply Rdiv_lt_0_compat; [exact Heps |]. pose proof (sqrt_pos S). lra. }
    exists N. intros n Hn. specialize (HN n Hn).
    rewrite Rabs_pos_eq in HN by apply Hpow.
    pose proof (sqrt_pos S) as Hd. specialize (Hpow n).
    assert (Hlt : (1 - a) ^ n * (sqrt S + 1) < eps).
    { apply Rmult_lt_reg_r with (r := / (sqrt S + 1));
        [apply Rinv_0_lt_compat; lra |].
      rewrite Rmult_assoc, Rinv_r, Rmult_1_r by lra. exact HN. }
    nra.
Qed.

Lemma ornament_converges_witness :
  wf sample
  /\ exists a, speed sample = Fin a
               /\ speed (Ornament_frames true 3 sample) = speed sample.
Proof.
  split; [exact OrnamentFacts.sample_wf |].
  destruct (ornament_converges true sample OrnamentFacts.sample_wf)
    as (a & cx & cy & cz & tx & ty & tz & d & Ha & _ & _ & _ & _ & Hn & _).
  exists a. split; [exact Ha | exact (proj1 (Hn 3%nat))].
Defined.

(** X16: in the tree form an ornament is drawn exactly at its current
    position; while scattered it is drawn at the same horizontal
    coordinates and, for a finite height, phase and clock time, at a
    height within [0.02] of the current one. *)
Theorem instancePosition_bobbing (o : t) (time : num) :
  instancePosition true time o = currentPos o
  /\ Vector3.x (instancePosition false time o) = Vector3.x (currentPos o)
  /\ Vector3.z (instancePosition false time o) = Vector3.z (currentPos o)
  /\ (forall yv ph tm,
        Vector3.y (currentPos o) = Fin yv -> phase o = Fin ph -> time = Fin tm ->
        exists yv',
          Vector3.y (instancePosition false time o) = Fin yv'
          /\ Rabs (yv' - yv) <= 0.02).
Proof.
  unfold instancePosition. cbv zeta. split; [| split; [| split]].
  - destruct (currentPos o) as [px py pz]. cbn. f_equal.
    destruct py as [v | sg |]; cbn; try reflexivity. f_equal. ring.
  - reflexivity.
  - reflexivity.
  - intros yv ph tm Hy Hp Ht. rewrite Hp, Ht. cbn [Vector3.y]. rewrite Hy. cbn.
    eexists. split; [reflexivity |].
    pose proof (SIN_bound (tm + ph)) as [H1 H2].
    apply Rabs_le. lra.
Qed.

Lemma instancePosition_bobbing_witness :
  Vector3.y (currentPos sample) = Fin 0 /\ phase sample = Fin 0
  /\ exists yv',
       Vector3.y (instancePosition false (Fin 1) sample) = Fin yv'
       /\ Rabs (yv' - 0) <= 0.02.
Proof.
  split; [reflexivity |]. split; [reflexivity |].
  exact (proj2 (proj2 (proj2 (instancePosition_bobbing sample (Fin 1))))
           0 0 1 eq_refl eq_refl eq_refl).
Defined.

End OrnamentMotion.

(* ================================================================= *)
(** ** More on the vertex shader *)

Module ShaderMore.
Import Shader.

Lemma easeOutCubic_range v : 0 <= v <= 1 -> 0 <= easeOutCubic v <= 1.
Proof.
  intros H. unfold easeOutCubic.
  assert (H0 : 0 <= (1 - v) ^ 3) by (apply pow_le; lra).
  assert (H1 : (1 - v) ^ 3 <= 1 ^ 3) by (apply pow_incr; lra).
  rewrite pow1 in H1. lra.
Qed.

Lemma easeOutCubic_mono v w :
  0 <= v -> v <= w -> w <= 1 -> easeOutCubic v <= easeOutCubic w.
Proof.
  intros H0 H H1. unfold easeOutCubic.
  assert (Hp : (1 - w) ^ 3 <= (1 - v) ^ 3) by (apply pow_incr; lra).
  lra.
Qed.

Lemma breath_bound time random : Rabs (breath time random) <= 0.05.
Proof.
  unfold breath. pose proof (SIN_bound (time * 2 + random * 10)) as [H1 H2].
  apply Rabs_le. lra.
Qed.

Lemma mix_between a b t :
  0 <= t <= 1 -> Rmin a b <= a * (1 - t) + b * t <= Rmax a b.
Proof. intros H. unfold Rmin, Rmax. destruct (Rle_dec a b); nra. Qed.

(** X17: whatever the inputs, the blended position is a point of the
    segment from the scatter position to the tree position, at the
    parameter [easeOutCubic(localProgress)] in [[0,1]]; and for a tree
    position of height at least [-20] that parameter never decreases when
    the global progress increases, so a particle never moves back toward
    its scatter position while the progress rises. *)
Theorem blend_on_segment (scatter tree : vec3) :
  (forall t,
     let e := easeOutCubic (localProgress (y tree) t) in
     0 <= e <= 1
     /\ blend scatter tree t = mix scatter tree e
     /\ Rmin (x scatter) (x tree) <= x (blend scatter tree t)
        <= Rmax (x scatter) (x tree)
     /\ Rmin (y scatter) (y tree) <= y (blend scatter tree t)
        <= Rmax (y scatter) (y tree)
     /\ Rmin (z scatter) (z tree) <= z (blend scatter tree t)
        <= Rmax (z scatter) (z tree))
  /\ (-20 <= y tree ->
      forall t1 t2, t1 <= t2 ->
        easeOutCubic (localProgress (y tree) t1)
        <= easeOutCubic (localProgress (y tree) t2)).
Proof.
  split.
  - intros t. cbv zeta.
    pose proof (ShaderFacts.localProgress_range (y tree) t) as Hl.
    pose proof (easeOutCubic_range _ Hl) as He.
    split; [exact He |]. split; [reflexivity |].
    unfold blend, mix. cbn [x y z]. repeat split; apply mix_between; exact He.
  - intros Hy t1 t2 Ht.
    pose proof (ShaderFacts.localProgress_range (y tree) t1) as H1.
    pose proof (ShaderFacts.localProgress_range (y tree) t2) as H2.
    apply easeOutCubic_mono; try lra.
    rewrite !ShaderFacts.localProgress_arg. apply ShaderFacts.smoothstep_mono.
    assert (Hd : 0 <= 1 + 2 * delay (y tree)) by (unfold delay; lra).
    assert (0 <= (t2 - t1) * (1 + 2 * delay (y tree)))
      by (apply Rmult_le_pos; lra).
    lra.
Qed.

Lemma blend_on_segment_witness :
  -20 <= y (mkvec3 1 6 2) /\ 0.2 <= 0.6
  /\ easeOutCubic (localProgress (y (mkvec3 1 6 2)) 0.2)
     <= easeOutCubic (localProgress (y (mkvec3 1 6 2)) 0.6).
Proof.
  assert (Hy : -20 <= y (mkvec3 1 6 2)) by (cbn; lra).
  assert (Ht : 0.2 <= 0.6) by lra.
  split; [exact Hy |]. split; [exact Ht |].
  exact (proj2 (blend_on_segment (mkvec3 3 4 5) (mkvec3 1 6 2)) Hy 0.2 0.6 Ht).
Defined.

(** X18: once the progress uniform exceeds [0.8], a particle whose blended
    position is not the origin is displaced along the direction of that
    position by the breath: the final position is the blended one scaled
    by [1 + breath / length], at distance [|breath| <= 0.05] from it.  At
    the origin the direction, and with it the final position, is
    undefined. *)
Theorem finalPos_breathing (a : Attributes) (u : Uniforms) :
  0.8 < uProgress u ->
  let p := blend (aScatterPos a) (aTreePos a) (uProgress u) in
  let br := breath (uTime u) (aRandom a) in
  (length p = 0 -> finalPos a u = None)
  /\ (length p <> 0 ->
      exists q,
        finalPos a u = Some q
        /\ q = vscale p (1 + br / length p)
        /\ sqrt ((x q - x p) * (x q - x p) + (y q - y p) * (y q - y p)
                 + (z q - z p) * (z q - z p)) = Rabs br
        /\ Rabs br <= 0.05).
Proof.
  intros Hu. cbv zeta. unfold finalPos. cbv zeta.
  set (p := blend (aScatterPos a) (aTreePos a) (uProgress u)).
  set (br := breath (uTime u) (aRandom a)).
  destruct (Rlt_dec 0.8 (uProgress u)) as [_ | N]; [| contradiction].
  unfold normalize. split; intros Hl.
  - destruct (Req_dec_T (length p) 0) as [_ | N]; [reflexivity | contradiction].
  - destruct (Req_dec_T (length p) 0) as [E | _]; [contradiction |].
    eexists. split; [reflexivity |].
    assert (Hq : vadd p (vscale (vscale p (/ length p)) br)
                 = vscale p (1 + br / length p)).
    { unfold vadd, vscale. cbn [x y z]. f_equal; field; exact Hl. }
    split; [exact Hq |]. split; [| apply ShaderMore.breath_bound].
    unfold vadd, vscale. cbn [x y z].
    set (S := x p * x p + y p * y p + z p * z p).
    assert (HS : 0 <= S).
    { pose proof (Rle_0_sqr (x p)) as Hx. pose proof (Rle_0_sqr (y p)) as Hy.
      pose proof (Rle_0_sqr (z p)) as Hz. unfold Rsqr in *. unfold S. lra. }
    assert (El : length p * length p = S) by (unfold length; now rewrite sqrt_sqrt).
    match goal with |- sqrt ?e = _ =>
      replace e with (Rsqr br * (S * / (length p * length p)))
        by (unfold S, Rsqr; field; exact Hl) end.
    rewrite El, Rinv_r, Rmult_1_r.
    + apply sqrt_Rsqr_abs.
    + intros E0. rewrite E0 in El. nra.
Qed.

Lemma finalPos_breathing_witness :
  0.8 < uProgress (mkUniforms 2 1 1)
  /\ length (blend (mkvec3 0 0 0) (mkvec3 3 4 0) 1) <> 0
  /\ exists q,
       finalPos (mkAttributes (mkvec3 0 0 0) (mkvec3 3 4 0) 0.1 1 0)
                (mkUniforms 2 1 1) = Some q
       /\ q = vscale (mkvec3 3 4 0) (1 + breath 2 0.1 / 5)
       /\ sqrt ((x q - 3) * (x q - 3) + (y q - 4) * (y q - 4)
                + (z q - 0) * (z q - 0)) = Rabs (breath 2 0.1).
Proof.
  assert (H : 0.8 < uProgress (mkUniforms 2 1 1)) by (cbn; lra).
  assert (Eb : blend (mkvec3 0 0 0) (mkvec3 3 4 0) 1 = mkvec3 3 4 0).
  { unfold blend. rewrite ShaderFacts.localProgress_arg. cbn [y]. unfold delay.
    rewrite ShaderFacts.smoothstep_high by lra. unfold easeOutCubic.
    replace (1 - (1 - 1) ^ 3) with 1 by ring. apply ShaderFacts.mix_one. }
  assert (El : length (mkvec3 3 4 0) = 5).
  { unfold length. cbn [x y z].
    replace (3 * 3 + 4 * 4 + 0 * 0) with (5 * 5) by ring.
    apply sqrt_square. lra. }
  assert (Hl : length (blend (mkvec3 0 0 0) (mkvec3 3 4 0) 1) <> 0)
    by (rewrite Eb, El; lra).
  split; [exact H |]. split; [exact Hl |].
  destruct (proj2 (finalPos_breathing
                     (mkAttributes (mkvec3 0 0 0) (mkvec3 3 4 0) 0.1 1 0)
                     (mkUniforms 2 1 1) H) Hl) as (q & Eq & Es & Ed & _).
  cbn [aScatterPos aTreePos aRandom uProgress uTime] in Es, Ed.
  rewrite Eb in Es, Ed. rewrite El in Es. cbn [x y z] in Ed.
  exists q. split; [exact Eq |]. split; [exact Es | exact Ed].
Defined.

End ShaderMore.

(* ================================================================= *)
(** ** The colour of a particle and of its fragments *)

Module ColorFacts.
Import Shader ShaderColor.

Lemma breath_range time random : -0.05 <= breath time random <= 0.05.
Proof.
  unfold breath. pose proof (SIN_bound (time * 2 + random * 10)) as [H1 H2]. lra.
Qed.

Lemma step_binary edge v : step edge v = 0 \/ step edge v = 1.
Proof. unfold step. destruct (Rlt_dec v edge); auto. Qed.

Lemma baseColor_valid a u :
  -6 <= y (aTreePos a) <= 6 -> valid (baseColor a u).
Proof.
  intros Hy. unfold baseColor, valid. cbv zeta.
  destruct (Rlt_dec (aColorType a) 0.5);
    [| destruct (Rlt_dec (aColorType a) 1.5);
       [| destruct (Rlt_dec (aColorType a) 2.5)]];
    unfold mix, cDeep, cEmerald, cRed, cSilver, cGold; cbn [x y z];
    try lra.
  pose proof (breath_range (uTime u) (aRandom a)) as Hb.
  set (t := (y (aTreePos a) + 6.0) / 12.0 + breath (uTime u) (aRandom a) * 2.0).
  assert (Ht : -0.1 <= t <= 1.1) by (unfold t; lra).
  lra.
Qed.

(** X19: the colour handed to the fragment shader is the base colour of
    the particle while the progress uniform is [0], the glitter being
    scaled by the progress; and for a tree position of height in
    [[-6, 6]] and a progress in [[0,1]] its three channels are in
    [[0,1]], whatever the colour type, the seed and the time. *)
Theorem vColor_valid (a : Attributes) (u : Uniforms) :
  (uProgress u = 0 -> vColor a u = baseColor a u)
  /\ (-6 <= y (aTreePos a) <= 6 -> 0 <= uProgress u <= 1 ->
      valid (vColor a u)).
Proof.
  split.
  - intros H. unfold vColor. rewrite H.
    replace (glitter a u * 0.8 * 0) with 0 by ring.
    apply ShaderFacts.mix_zero.
  - intros Hy Hp. pose proof (baseColor_valid a u Hy) as (Hx & Hy' & Hz).
    unfold vColor, valid.
    set (g := glitter a u * 0.8 * uProgress u).
    assert (Hg : 0 <= g <= 1).
    { unfold g, glitter. cbv zeta.
      match goal with |- context [step ?e ?v] =>
        destruct (step_binary e v) as [E | E]; rewrite E end; nra. }
    unfold mix. cbn [x y z]. repeat split; nra.
Qed.

Lemma vColor_valid_witness :
  -6 <= y (aTreePos (mkAttributes (mkvec3 3 4 5) (mkvec3 1 6 2) 0.1 1 0)) <= 6
  /\ 0 <= uProgress (mkUniforms 2 0.5 1) <= 1
  /\ valid (vColor (mkAttributes (mkvec3 3 4 5) (mkvec3 1 6 2) 0.1 1 0)
                   (mkUniforms 2 0.5 1)).
Proof.
  assert (Hy : -6 <= y (aTreePos (mkAttributes (mkvec3 3 4 5) (mkvec3 1 6 2)
                                    0.1 1 0)) <= 6) by (cbn; lra).
  assert (Hp : 0 <= uProgress (mkUniforms 2 0.5 1) <= 1) by (cbn; lra).
  split; [exact Hy |]. split; [exact Hp |].
  exact (proj2 (vColor_valid _ _) Hy Hp).
Defined.

(** X20: the fragment shader discards exactly the fragments farther than
    [0.5] from the centre of the point; every other fragment is written
    with the colour it was handed and an opacity [vAlpha * strength] with
    [strength] in [[0,1]], equal to [1] at the centre and to [0] on the
    rim; the power it computes is never undefined. *)
Theorem fragment_soft_circle (px py : R) (c : vec3) (alpha : R) :
  let dist := sqrt ((px - 0.5) * (px - 0.5) + (py - 0.5) * (py - 0.5)) in
  (0.5 < dist -> Fragment.main px py c alpha = Fragment.Discard)
  /\ (dist <= 0.5 ->
      exists strength,
        Fragment.main px py c alpha = Fragment.FragColor c (alpha * strength)
        /\ 0 <= strength <= 1
        /\ (dist = 0 -> strength = 1)
        /\ (dist = 0.5 -> strength = 0)).
Proof.
  cbv zeta. unfold Fragment.main. cbv zeta.
  set (dist := sqrt ((px - 0.5) * (px - 0.5) + (py - 0.5) * (py - 0.5))).
  assert (Hd : 0 <= dist) by apply sqrt_pos.
  split; intros H.
  - destruct (Rlt_dec 0.5 dist); [reflexivity | contradiction].
  - destruct (Rlt_dec 0.5 dist) as [N | _]; [exfalso; lra |].
    unfold Fragment.pow.
    destruct (total_order_T (1.0 - dist * 2.0) 0) as [[L | E] | G].
    + exfalso. lra.
    + destruct (Rlt_dec 0 1.5) as [_ | N]; [| exfalso; lra].
      exists 0. split; [reflexivity |]. split; [lra |].
      split; intros; [exfalso; lra | reflexivity].
    + eexists. split; [reflexivity |].
      assert (B : 0 < Rpower (1.0 - dist * 2.0) 1.5 <= 1)
        by (apply Rpower_unit; lra).
      split; [lra |]. split; intros E; [| exfalso; lra].
      rewrite E. replace (1.0 - 0 * 2.0) with 1 by lra.
      unfold Rpower. rewrite ln_1, Rmult_0_r. apply exp_0.
Qed.

Lemma fragment_soft_circle_witness :
  sqrt ((0.5 - 0.5) * (0.5 - 0.5) + (0.5 - 0.5) * (0.5 - 0.5)) <= 0.5
  /\ exists strength,
       Fragment.main 0.5 0.5 cGold 1 = Fragment.FragColor cGold (1 * strength)
       /\ 0 <= strength <= 1.
Proof.
  assert (H : sqrt ((0.5 - 0.5) * (0.5 - 0.5) + (0.5 - 0.5) * (0.5 - 0.5)) <= 0.5).
  { replace ((0.5 - 0.5) * (0.5 - 0.5) + (0.5 - 0.5) * (0.5 - 0.5)) with 0 by lra.
    rewrite sqrt_0. lra. }
  split; [exact H |].
  destruct (proj2 (fragment_soft_circle 0.5 0.5 cGold 1) H) as [st [E [B _]]].
  exists st. split; [exact E | exact B].
Defined.

End ColorFacts.

(* ================================================================= *)
(** ** The star *)

Module StarFacts.
Import Star.

(** The frame callback on a finite mesh. *)
Lemma useFrame_fin cfg h b t dt px py pz r sx sy sz :
  TREE_HEIGHT cfg = Fin h ->
  useFrame cfg b (Fin t) (Fin dt)
    (Some (mkMesh (Vector3.fin px py pz) (Fin r) (Vector3.fin sx sy sz)))
  = (let ty := if b then h / 2 + 0.8 else h + 2 + sin t * 0.5 in
     let ts := if b then 0.8 else 0.001 in
     let s := (1 - dt * 2.0) * sx + dt * 2.0 * ts in
     Some (mkMesh (Vector3.fin (px + (0 - px) * (dt * 2.0))
                               (py + (ty - py) * (dt * 2.0))
                               (pz + (0 - pz) * (dt * 2.0)))
                  (Fin (r + dt * 0.8))
                  (Vector3.fin s s s))).
Proof.
  intros Hh. unfold useFrame. rewrite Hh. rewrite div_fin by lra.
  cbv zeta. unfold Vector3.lerp, MathUtils_lerp, setScalar, Vector3.fin.
  destruct b; cbn; reflexivity.
Qed.

Lemma useFrame_steady cfg h f mesh :
  TREE_HEIGHT cfg = Fin h -> 0 <= h -> brief f -> steady h mesh ->
  steady h (useFrame cfg (FoliageLoop.isTreeForm f)
              (Fin (FoliageLoop.elapsedTime f)) (Fin (FoliageLoop.delta f)) mesh).
Proof.
  intros Hh Hpos [D0 D1] (yv & r & sc & -> & Hy & Hsc).
  rewrite (useFrame_fin cfg h) by exact Hh. cbv zeta.
  pose proof (SIN_bound (FoliageLoop.elapsedTime f)) as [S1 S2].
  set (dt := FoliageLoop.delta f) in *.
  set (ty := if FoliageLoop.isTreeForm f then h / 2 + 0.8
             else h + 2 + sin (FoliageLoop.elapsedTime f) * 0.5).
  set (ts := if FoliageLoop.isTreeForm f then 0.8 else 0.001).
  exists (yv + (ty - yv) * (dt * 2.0)), (r + dt * 0.8),
         ((1 - dt * 2.0) * sc + dt * 2.0 * ts).
  split.
  - replace (0 + (0 - 0) * (dt * 2.0)) with 0 by ring. reflexivity.
  - assert (Hty : 0 <= ty <= h + 2.5)
      by (unfold ty; destruct (FoliageLoop.isTreeForm f); lra).
    assert (Hts : 0.001 <= ts <= 1)
      by (unfold ts; destruct (FoliageLoop.isTreeForm f); lra).
    split; nra.
Qed.

(** X21: for a tree of finite height [h >= 0], through any sequence of
    frames of at most half a second each and whatever the form asked for
    in each of them, the star stays on the axis of the tree at a height in
    [[0, h + 2.5]], and its scale stays the same along the three axes and
    within [[0.001, 1]]: it never reaches zero and never turns negative. *)
Theorem star_stays_steady (cfg : Config) (h : R) (fs : list FoliageLoop.Frame)
    (mesh : option Mesh) :
  TREE_HEIGHT cfg = Fin h -> 0 <= h -> Forall brief fs -> steady h mesh ->
  steady h (play cfg fs mesh).
Proof.
  intros Hh Hpos. revert mesh.
  induction fs as [| f rest IH]; intros mesh Hfs Hm; cbn [play].
  - exact Hm.
  - inversion Hfs as [| f' rest' Hf Hrest]; subst.
    apply IH; [exact Hrest |]. now apply useFrame_steady.
Qed.

Lemma fresh_steady h : 0 <= h -> steady h (Some fresh).
Proof.
  intros Hh. exists 0, 0, 1. split; [reflexivity |]. split; lra.
Qed.

Lemma star_stays_steady_witness :
  TREE_HEIGHT source_config = Fin 12 /\ 0 <= 12
  /\ Forall brief [FoliageLoop.mkFrame false 0.5 0.5; FoliageLoop.mkFrame true 1 0.5]
  /\ steady 12 (Some fresh)
  /\ steady 12
       (play source_config
          [FoliageLoop.mkFrame false 0.5 0.5; FoliageLoop.mkFrame true 1 0.5]
          (Some fresh)).
Proof.
  assert (Hh : 0 <= 12) by lra.
  assert (Hf : Forall brief [FoliageLoop.mkFrame false 0.5 0.5;
                             FoliageLoop.mkFrame true 1 0.5])
    by (repeat constructor; cbn; lra).
  split; [reflexivity |]. split; [exact Hh |]. split; [exact Hf |].
  split; [exact (fresh_steady 12 Hh) |].
  exact (star_stays_steady source_config 12 _ (Some fresh) eq_refl Hh Hf
           (fresh_steady 12 Hh)).
Defined.

(** X22: the rotation of the mounted star grows by [0.8] radians per
    second of frame time, whatever the lengths of the frames and the form:
    after any sequence of frames it is the initial rotation plus [0.8]
    times their total duration; the unmounted star stays unmounted. *)
Theorem star_rotation (cfg : Config) (fs : list FoliageLoop.Frame) :
  play cfg fs None = None
  /\ forall m r,
       rotation_y m = Fin r ->
       exists m',
         play cfg fs (Some m) = Some m'
         /\ rotation_y m' = Fin (r + 0.8 * duration fs).
Proof.
  induction fs as [| f rest [IHn IHs]]; cbn [play duration].
  - split; [reflexivity |]. intros m r Hr. exists m. split; [reflexivity |].
    rewrite Hr. f_equal. ring.
  - split; [exact IHn |]. intros m r Hr. unfold useFrame at 1. cbv zeta.
    match goal with |- context [play cfg rest (Some ?m1)] =>
      destruct (IHs m1 (r + FoliageLoop.delta f * 0.8)) as [m' [E R]] end.
    { cbn [rotation_y]. rewrite Hr. reflexivity. }
    exists m'. split; [exact E |]. rewrite R. f_equal. ring.
Qed.

Lemma star_rotation_witness :
  rotation_y fresh = Fin 0
  /\ exists m',
       play source_config
         [FoliageLoop.mkFrame false 1 1; FoliageLoop.mkFrame true 3 2]
         (Some fresh) = Some m'
       /\ rotation_y m'
          = Fin (0 + 0.8 * duration [FoliageLoop.mkFrame false 1 1;
                                     FoliageLoop.mkFrame true 3 2]).
Proof.
  split; [reflexivity |].
  exact (proj2 (star_rotation source_config
                  [FoliageLoop.mkFrame false 1 1; FoliageLoop.mkFrame true 3 2])
           fresh 0 eq_refl).
Defined.

End StarFacts.

Module StarShape.
Import Star.

Lemma vertex_fin i :
  vertex i = (Fin (cos (angleOf i) * radiusOf i), Fin (sin (angleOf i) * radiusOf i)).
Proof.
  unfold vertex, angleOf, radiusOf, outerRadius, innerRadius, points, Math_PI.
  cbv zeta. change (5 * 2)%nat with 10%nat.
  assert (H10 : INR 10 <> 0) by (apply not_0_INR; discriminate).
  rewrite !div_fin by (try exact H10; lra).
  destruct (Nat.eqb (i mod 2) 0); reflexivity.
Qed.

Lemma outline_nth n : forall i0 j,
  (j < n)%nat ->
  nth_error (outline n i0) j
  = Some (let (px, py) := vertex (i0 + j) in
          if Nat.eqb (i0 + j) 0 then MoveTo px py else LineTo px py).
Proof.
  induction n as [| n IH]; intros i0 j Hj; [lia |].
  cbn [outline]. destruct j as [| j].
  - rewrite Nat.add_0_r. destruct (vertex i0). reflexivity.
  - destruct (vertex i0). cbn [nth_error]. rewrite IH by lia.
    now replace (S i0 + j)%nat with (i0 + S j)%nat by lia.
Qed.

Lemma outline_length n : forall i0, length (outline n i0) = n.
Proof.
  induction n as [| n IH]; intros i0; cbn [outline]; [reflexivity |].
  destruct (vertex i0). cbn. now rewrite IH.
Qed.

(** X23: the path of the star has ten vertices and is then closed; it
    starts at the top, at [(0, 1)], and each later vertex [i] is joined by
    a line and lies at distance [1] from the centre when [i] is even and
    [0.45] when [i] is odd, at the angle [pi/2 + i * 2 pi / 10]. *)
Theorem star_outline :
  length shape = 11%nat
  /\ nth_error shape 0 = Some (MoveTo (Fin 0) (Fin 1))
  /\ nth_error shape 10 = Some ClosePath
  /\ forall i, (0 < i < 10)%nat ->
       exists px py,
         nth_error shape i = Some (LineTo (Fin px) (Fin py))
         /\ px = cos (angleOf i) * radiusOf i
         /\ py = sin (angleOf i) * radiusOf i
         /\ sqrt (px * px + py * py) = radiusOf i.
Proof.
  unfold shape. change (points * 2)%nat with 10%nat.
  split; [rewrite length_app, outline_length; reflexivity |].
  split; [| split].
  - rewrite nth_error_app1 by (rewrite outline_length; lia).
    rewrite outline_nth by lia. cbn [Nat.add]. rewrite vertex_fin.
    cbn [Nat.eqb].
    assert (Ea : angleOf 0 = PI / 2).
    { unfold angleOf. change (INR 0) with 0. unfold Rdiv. ring. }
    assert (Er : radiusOf 0 = 1) by reflexivity.
    rewrite Ea, Er, cos_PI2, sin_PI2. do 2 f_equal; f_equal; ring.
  - rewrite nth_error_app2 by (rewrite outline_length; lia).
    rewrite outline_length. reflexivity.
  - intros i Hi.
    rewrite nth_error_app1 by (rewrite outline_length; lia).
    rewrite outline_nth by lia. cbn [Nat.add]. rewrite vertex_fin.
    destruct (Nat.eqb_spec i 0) as [E | _]; [lia |].
    eexists _, _. split; [reflexivity |]. split; [reflexivity |].
    split; [reflexivity |].
    assert (Hr : 0 <= radiusOf i)
      by (unfold radiusOf; destruct (Nat.eqb (i mod 2) 0); lra).
    pose proof (sin2_cos2 (angleOf i)) as Hsc. unfold Rsqr in Hsc.
    match goal with |- sqrt ?e = _ =>
      replace e with (radiusOf i * radiusOf i
                      * (sin (angleOf i) * sin (angleOf i)
                         + cos (angleOf i) * cos (angleOf i))) by ring end.
    rewrite Hsc, Rmult_1_r. now apply sqrt_square.
Qed.

Lemma star_outline_witness :
  (0 < 1 < 10)%nat
  /\ exists px py,
       nth_error shape 1 = Some (LineTo (Fin px) (Fin py))
       /\ sqrt (px * px + py * py) = radiusOf 1.
Proof.
  assert (H : (0 < 1 < 10)%nat) by lia.
  split; [exact H |].
  destruct (proj2 (proj2 (proj2 star_outline)) 1%nat H)
    as (px & py & E & _ & _ & R).
  exists px, py. split; [exact E | exact R].
Defined.

End StarShape.

(* ================================================================= *)
(** ** Rest states *)

Module RestFacts.

Lemma play_scattered_rest (fs : list FoliageLoop.Frame) : forall m0,
  Forall (fun f => FoliageLoop.isTreeForm f = false) fs ->
  Foliage.uProgress m0 = Fin 0 ->
  exists m,
    FoliageLoop.play fs (Foliage.mkState (Fin 0) (Some m0))
    = Foliage.mkState (Fin 0) (Some m)
    /\ Foliage.uProgress m = Fin 0.
Proof.
  induction fs as [| f rest IH]; intros m0 Hfs Hm; cbn [FoliageLoop.play].
  - now exists m0.
  - inversion Hfs as [| f' rest' Hf Hrest]; subst. rewrite Hf.
    rewrite FoliageFacts.useFrame_mounted. cbv zeta. unfold Foliage.targetOf.
    replace (0 + (0 - 0) * (1.5 * FoliageLoop.delta f)) with 0 by ring.
    apply IH; [exact Hrest | reflexivity].
Qed.

(** X24: as long as the tree form is never asked for, the progress of the
    mounted component and the [uProgress] uniform stay exactly [0],
    whatever the lengths of the frames; and with that uniform at [0] the
    vertex shader places every particle whose tree position has height at
    least [-10] exactly at its scatter position. *)
Theorem scattered_scene_at_rest :
  (forall fs,
     Forall (fun f => FoliageLoop.isTreeForm f = false) fs ->
     exists m,
       FoliageLoop.play fs Foliage.mounted = Foliage.mkState (Fin 0) (Some m)
       /\ Foliage.uProgress m = Fin 0)
  /\ (forall a u,
        Shader.uProgress u = 0 -> -10 <= Shader.y (Shader.aTreePos a) ->
        Shader.finalPos a u = Some (Shader.aScatterPos a)).
Proof.
  split.
  - intros fs Hfs. unfold Foliage.mounted.
    now apply play_scattered_rest.
  - intros a u Hu Hy. unfold Shader.finalPos. cbv zeta. rewrite Hu.
    destruct (Rlt_dec 0.8 0) as [N | _]; [exfalso; lra |].
    f_equal. unfold Shader.blend. rewrite ShaderFacts.localProgress_arg.
    assert (Hd : 0 <= Shader.delay (Shader.y (Shader.aTreePos a)))
      by (unfold Shader.delay; lra).
    rewrite ShaderFacts.smoothstep_low by nra. unfold Shader.easeOutCubic.
    replace (1 - (1 - 0) ^ 3) with 0 by ring. apply ShaderFacts.mix_zero.
Qed.

Lemma scattered_scene_at_rest_witness :
  Forall (fun f => FoliageLoop.isTreeForm f = false)
    [FoliageLoop.mkFrame false 1 1; FoliageLoop.mkFrame false 5 4]
  /\ exists m,
       FoliageLoop.play
         [FoliageLoop.mkFrame false 1 1; FoliageLoop.mkFrame false 5 4]
         Foliage.mounted
       = Foliage.mkState (Fin 0) (Some m).
Proof.
  assert (H : Forall (fun f => FoliageLoop.isTreeForm f = false)
                [FoliageLoop.mkFrame false 1 1; FoliageLoop.mkFrame false 5 4])
    by (repeat constructor).
  split; [exact H |].
  destruct (proj1 scattered_scene_at_rest _ H) as [m [E _]].
  now exists m.
Defined.

(** X25: an ornament with a finite current position that stands at the
    target of the form in force is left where it is by the update, for
    every finite speed, inside [[0.02, 0.07]] or not; the frame callback
    never moves such an ornament away from a target it has reached. *)
Theorem ornament_at_target_stays (b : bool) (o : Ornament.t) :
  Vector3.finite (Ornament.currentPos o) ->
  is_finite (Ornament.speed o) ->
  Ornament.currentPos o = Ornament.target b o ->
  Ornament.currentPos (Ornament.update b o) = Ornament.currentPos o.
Proof.
  intros Hc (a & Ha) E.
  destruct (OrnamentFacts.finite_fin _ Hc) as (cx & cy & cz & Ec).
  assert (Et : Ornament.target b o = Vector3.fin cx cy cz) by (rewrite <- E; exact Ec).
  rewrite (OrnamentFacts.update_fin b o a _ _ _ _ _ _ Ha Ec Et), Ec.
  unfold Vector3.fin. f_equal; f_equal; ring.
Qed.

Lemma ornament_at_target_stays_witness :
  Vector3.finite (Ornament.currentPos Ornament.hasty)
  /\ is_finite (Ornament.speed Ornament.hasty)
  /\ Ornament.currentPos Ornament.hasty
     = Ornament.target true Ornament.hasty
  /\ Ornament.currentPos (Ornament.update true Ornament.hasty)
     = Ornament.currentPos Ornament.hasty.
Proof.
  assert (Hc : Vector3.finite (Ornament.currentPos Ornament.hasty))
    by apply OrnamentFacts.fin_finite.
  assert (Hs : is_finite (Ornament.speed Ornament.hasty)) by (now exists 3).
  split; [exact Hc |]. split; [exact Hs |]. split; [reflexivity |].
  exact (ornament_at_target_stays true Ornament.hasty Hc Hs eq_refl).
Defined.

End RestFacts.
